(** * use-fit-text: the font-size search of [useFitText]

    A shallow embedding of [src/index.ts].  The hook keeps a search state
    (React state), a calculating flag (React state), two refs
    ([isCalculatingRef], [depsPrevRef]) and talks to the outside through the
    callbacks [onStart] / [onFinish] and [console.info].  Each effect body
    of the hook is a computation in a small state-and-trace monad over the
    hook's cells; calls of the callbacks and of the console are recorded in
    the trace.

    Numbers.  Font sizes are JavaScript numbers.  They are modelled as exact
    rationals in canonical form ([Qc]), so that [===] is Leibniz equality
    and halving is exact; rounding, infinities and NaN of IEEE doubles are
    not modelled.  [calcKey] is a counter that starts at 0 and is only ever
    incremented: a [nat].  Element extents ([scrollHeight], ...) are
    integers.

    The host.  React and the browser are not part of the repository.  What
    is used of them: an effect body sees the state of its render and a
    state it sets is the state of the next render; the layout effect runs
    again when one of its dependencies changed; the resize observer
    notifies for observed elements only.  The coalescing of notifications
    through [requestAnimationFrame] and the clean-up of the subscription
    are left out. *)

From Stdlib Require Import QArith Qcanon Qround Lqa Lia ZArith Arith List String Bool.
Import ListNotations.

Local Open Scope Qc_scope.

(* ================================================================== *)
(** ** JavaScript numbers and the [Math] functions the hook uses *)

Module JS.

Definition number : Type := Qc.

Definition of_Z (z : Z) : number := Q2Qc (inject_Z z).

(** [x <= y], [x > y] and [x === y] on numbers. *)
Definition le (x y : number) : bool := Qle_bool x y.
Definition gt (x y : number) : bool := negb (Qle_bool x y).
Definition strict_eq (x y : number) : bool := Qeq_bool x y.

Definition Math_abs (x : number) : number := if le 0 x then x else - x.
Definition Math_min (x y : number) : number := if le x y then x else y.
Definition Math_max (x y : number) : number := if le x y then y else x.

(** A template literal, kept as its pieces: the literal chunks and the
    interpolated numbers (the runtime's number formatting is applied when
    the string is built). *)
Inductive Piece : Type :=
| Lit (s : string)
| Num (n : number).

Definition Template : Type := list Piece.

End JS.

(* ================================================================== *)
(** ** Options, log levels, state *)

Inductive TLogLevel : Type := debug | info | warn | error | none.

Definition LOG_LEVEL (l : TLogLevel) : nat :=
  match l with
  | debug => 10
  | info => 20
  | warn => 30
  | error => 40
  | none => 100
  end.

(** [TOptions] after the defaults of the parameter list have been applied.
  A callback is opaque to the hook: [onFinish] / [onStart] say whether
  the caller supplied one, and every call is recorded in the trace. *)
Record TOptions : Type := {
  logLevel : TLogLevel;
  maxFontSize : JS.number;
  minFontSize : JS.number;
  onFinish : bool;
  onStart : bool;
  resolution : JS.number
}.

(** The defaults of the destructuring pattern of [useFitText]. *)
Definition defaultOptions : TOptions := {|
  logLevel := warn;
  maxFontSize := JS.of_Z 100;
  minFontSize := JS.of_Z 20;
  onFinish := false;
  onStart := false;
  resolution := JS.of_Z 5
|}.

(** The object held by [useState(initState)]. *)
Record TState : Type := {
  calcKey : nat;
  fontSize : JS.number;
  fontSizePrev : JS.number;
  fontSizeMax : JS.number;
  fontSizeMin : JS.number
}.

Definition initState (opts : TOptions) : TState := {|
  calcKey := 0;
  fontSize := maxFontSize opts;
  fontSizePrev := minFontSize opts;
  fontSizeMax := maxFontSize opts;
  fontSizeMin := minFontSize opts
|}.

(** [{ ...initState(), calcKey: k }] *)
Definition with_calcKey (s : TState) (k : nat) : TState := {|
  calcKey := k;
  fontSize := fontSize s;
  fontSizePrev := fontSizePrev s;
  fontSizeMax := fontSizeMax s;
  fontSizeMin := fontSizeMin s
|}.

(** The four extents of the element that [ref.current] points to. *)
Record HTMLElement : Type := {
  scrollHeight : Z;
  offsetHeight : Z;
  scrollWidth : Z;
  offsetWidth : Z
}.

(** What the hook does to the outside world. *)
Inductive Event : Type :=
| Call_onStart
| Call_onFinish (fontSize : JS.number)
| Console (method : TLogLevel) (message : JS.Template).

(* ================================================================== *)
(** ** Deep equality of dependency lists

  [dequal] comes from the package [dequal/lite]; on the values held in a
  dependency list it is a parameter, on arrays it compares length and
  elements in order, and [undefined] equals only [undefined]. *)

Class Dequal (V : Type) : Type := dequal : V -> V -> bool.

Fixpoint dequal_array {V} `{Dequal V} (foo bar : list V) : bool :=
  match foo, bar with
  | [], [] => true
  | x :: foo', y :: bar' => dequal x y && dequal_array foo' bar'
  | _, _ => false
  end.

#[global] Instance Dequal_array {V} `{Dequal V} : Dequal (list V) := dequal_array.

#[global] Instance Dequal_optional {V} `{Dequal V} : Dequal (option V) :=
fun foo bar =>
  match foo, bar with
  | None, None => true
  | Some x, Some y => dequal x y
  | _, _ => false
  end.

#[global] Instance Dequal_string : Dequal string := String.eqb.

(* ================================================================== *)
(** ** The hook's cells and the effect monad *)

Section Hook.

(** The type of the values of the dependency list. *)
Context {V : Type}.

Definition DependencyList : Type := list V.

(** Everything one instance of the hook keeps between renders.
    [observing] records that [ro.observe] has been called. *)
Record Hook : Type := {
    state : TState;
    isCalculating : bool;
    isCalculatingRef : bool;
    depsPrevRef : option DependencyList;
    observing : bool
}.

(** An effect body: reads and writes the cells, appends to the trace. *)
Definition Effect (A : Type) : Type := Hook -> A * Hook * list Event.

Definition ret {A} (a : A) : Effect A := fun h => (a, h, []).

Definition bind {A B} (c : Effect A) (k : A -> Effect B) : Effect B :=
  fun h =>
    let '(a, h1, t1) := c h in
    let '(b, h2, t2) := k a h1 in
    (b, h2, t1 ++ t2).

Definition hook_of {A} (r : A * Hook * list Event) : Hook := snd (fst r).
Definition trace_of {A} (r : A * Hook * list Event) : list Event := snd r.

(** The state of the current render, [const { calcKey, ... } = state]. *)
Definition render_state : Effect TState := fun h => (state h, h, []).

Definition setState (s : TState) : Effect unit :=
  fun h => (tt, {| state := s;
                   isCalculating := isCalculating h;
                   isCalculatingRef := isCalculatingRef h;
                   depsPrevRef := depsPrevRef h;
                   observing := observing h |}, []).

Definition setCalculating (b : bool) : Effect unit :=
  fun h => (tt, {| state := state h;
                   isCalculating := b;
                   isCalculatingRef := isCalculatingRef h;
                   depsPrevRef := depsPrevRef h;
                   observing := observing h |}, []).

Definition read_isCalculatingRef : Effect bool :=
  fun h => (isCalculatingRef h, h, []).

Definition write_isCalculatingRef (b : bool) : Effect unit :=
  fun h => (tt, {| state := state h;
                   isCalculating := isCalculating h;
                   isCalculatingRef := b;
                   depsPrevRef := depsPrevRef h;
                   observing := observing h |}, []).

Definition read_depsPrevRef : Effect (option DependencyList) :=
  fun h => (depsPrevRef h, h, []).

Definition write_depsPrevRef (d : option DependencyList) : Effect unit :=
  fun h => (tt, {| state := state h;
                   isCalculating := isCalculating h;
                   isCalculatingRef := isCalculatingRef h;
                   depsPrevRef := d;
                   observing := observing h |}, []).

Definition ro_observe : Effect unit :=
  fun h => (tt, {| state := state h;
                   isCalculating := isCalculating h;
                   isCalculatingRef := isCalculatingRef h;
                   depsPrevRef := depsPrevRef h;
                   observing := true |}, []).

Definition emit (e : Event) : Effect unit := fun h => (tt, h, [e]).

(** [cb && cb(...)] *)
Definition call_if (supplied : bool) (e : Event) : Effect unit :=
  if supplied then emit e else ret tt.

End Hook.

Arguments Hook V : clear implicits.
Arguments Effect V A : clear implicits.

Declare Scope effect_scope.
Delimit Scope effect_scope with effect.
Notation "x <- c ;; k" := (bind c (fun x => k))
  (at level 61, c at next level, right associativity) : effect_scope.
Notation "c ;; k" := (bind c (fun _ => k))
  (at level 61, right associativity) : effect_scope.

(* ================================================================== *)
(** ** The hook *)

Section UseFitText.

Context {V : Type}.
Variable opts : TOptions.

Local Open Scope effect_scope.

(** [useState(initState)], [useState(false)], [useRef(false)],
    [useRef()]; nothing is observed yet. *)
Definition mount : Hook V := {|
  state := initState opts;
  isCalculating := false;
  isCalculatingRef := false;
  depsPrevRef := None;
  observing := false
|}.

(** The callback handed to [requestAnimationFrame] by the resize
    observer.  [calcKey] is the variable this closure captured. *)
Definition resizeCallback (calcKey : nat) : Effect V unit :=
  busy <- read_isCalculatingRef ;;
  if busy then ret tt
  else
    call_if (onStart opts) Call_onStart ;;
    write_isCalculatingRef true ;;
    setCalculating true ;;
    setState (with_calcKey (initState opts) (calcKey + 1)).

(** The observer is built once, by the initialiser of [useState] in the
    first render, so its callback closes over the [calcKey] of that
    render, which is the one of [initState()]. *)
Definition ro : Effect V unit := resizeCallback (calcKey (initState opts)).

(** [useEffect(() => { if (ref.current) ro.observe(ref.current); ... })] *)
Definition observeEffect (ref_current : option HTMLElement) : Effect V unit :=
  match ref_current with
  | Some _ => ro_observe
  | None => ret tt
  end.

(** "Recalculate when dependencies change".  [depsPrev] is read from
    [depsPrevRef.current] by the render; nothing but this effect writes
    the ref, so the effect of that render sees the same value. *)
Definition depsEffect `{Dequal V} (deps : DependencyList) : Effect V unit :=
  s <- render_state ;;
  depsPrev <- read_depsPrevRef ;;
  busy <- read_isCalculatingRef ;;
  if (calcKey s =? 0)%nat || busy then ret tt
  else
    (if negb (dequal depsPrev (Some deps)) then
       call_if (onStart opts) Call_onStart ;;
       setCalculating true ;;
       setState (with_calcKey (initState opts) (calcKey s + 1))
     else ret tt) ;;
    write_depsPrevRef (Some deps).

(** [!!ref.current && (scrollHeight > offsetHeight || scrollWidth > offsetWidth)] *)
Definition isOverflow (ref_current : option HTMLElement) : bool :=
  match ref_current with
  | None => false
  | Some el =>
      (scrollHeight el >? offsetHeight el)%Z || (scrollWidth el >? offsetWidth el)%Z
  end.

(** The template literal handed to [console.info]. *)
Definition failure_message : JS.Template :=
  [JS.Lit "[use-fit-text] reached `minFontSize = ";
   JS.Num (minFontSize opts);
   JS.Lit "` without fitting text"].

(** "Check overflow and resize font". *)
Definition layoutEffect (ref_current : option HTMLElement) : Effect V unit :=
  s <- render_state ;;
  if (calcKey s =? 0)%nat then ret tt
  else
    let isWithinResolution :=
      JS.le (JS.Math_abs (fontSize s - fontSizePrev s)) (resolution opts) in
    let isOverflow := isOverflow ref_current in
    let isFailed := isOverflow && JS.strict_eq (fontSize s) (fontSizePrev s) in
    let isAsc := JS.gt (fontSize s) (fontSizePrev s) in
    if isWithinResolution then
      if isFailed then
        write_isCalculatingRef false ;;
        setCalculating false ;;
        if (LOG_LEVEL (logLevel opts) <=? LOG_LEVEL info)%nat
        then emit (Console info failure_message)
        else ret tt
      else if isOverflow then
        setState {| fontSize := if isAsc then fontSizePrev s else fontSizeMin s;
                    fontSizeMax := fontSizeMax s;
                    fontSizeMin := fontSizeMin s;
                    fontSizePrev := fontSizePrev s;
                    calcKey := calcKey s |}
      else
        write_isCalculatingRef false ;;
        setCalculating false ;;
        call_if (onFinish opts) (Call_onFinish (fontSize s))
    else
      let '(delta, newMax, newMin) :=
        if isOverflow then
          (if isAsc then fontSizePrev s - fontSize s else fontSizeMin s - fontSize s,
           JS.Math_min (fontSizeMax s) (fontSize s),
           fontSizeMin s)
        else
          (if isAsc then fontSizeMax s - fontSize s else fontSizePrev s - fontSize s,
           fontSizeMax s,
           JS.Math_max (fontSizeMin s) (fontSize s)) in
      setState {| calcKey := calcKey s;
                  fontSize := fontSize s + delta / JS.of_Z 2;
                  fontSizeMax := newMax;
                  fontSizeMin := newMin;
                  fontSizePrev := fontSize s |}.

(** What [useFitText] returns (the ref itself is left out). *)
Record TResult : Type := {
    result_fontSize : JS.Template;
    result_isCalculating : bool
}.

Definition useFitText (h : Hook V) : TResult := {|
    result_fontSize := [JS.Num (fontSize (state h)); JS.Lit "%"];
    result_isCalculating := isCalculating h
|}.

(* ------------------------------------------------------------------ *)
(** *** What can happen to a mounted hook *)

(** The host runs the effects; the browser delivers resize notifications
    for an observed element only. *)
Inductive Input : Type :=
| RunObserveEffect (ref_current : option HTMLElement)
| ResizeNotification
| RunDepsEffect (deps : @DependencyList V)
| RunLayoutEffect (ref_current : option HTMLElement).

(** The container an input finds attached; an input that does not look
    at the ref finds none. *)
Definition attachment (i : Input) : option HTMLElement :=
  match i with
  | RunObserveEffect r | RunLayoutEffect r => r
  | ResizeNotification | RunDepsEffect _ => None
  end.

Definition handle `{Dequal V} (i : Input) : Effect V unit :=
  match i with
  | RunObserveEffect r => observeEffect r
  | ResizeNotification => fun h => if observing h then ro h else ret tt h
  | RunDepsEffect deps => depsEffect deps
  | RunLayoutEffect r => layoutEffect r
  end.

Fixpoint replay `{Dequal V} (inputs : list Input) : Effect V unit :=
  match inputs with
  | [] => ret tt
  | i :: rest => handle i ;; replay rest
  end.

(* ------------------------------------------------------------------ *)
(** *** One search, as the host schedules it

    The layout effect lists [calcKey], [fontSize], [fontSizeMax],
    [fontSizeMin] and [fontSizePrev] as dependencies (the others,
    [onFinish], [ref] and [resolution], do not change here): after a
    render the host runs it again exactly when one of them differs from
    the render before.  [layout] is what the browser lays out for a
    given font size. *)

Definition same_deps (s s' : TState) : bool :=
  (calcKey s =? calcKey s')%nat
  && JS.strict_eq (fontSize s) (fontSize s')
  && JS.strict_eq (fontSizeMax s) (fontSizeMax s')
  && JS.strict_eq (fontSizeMin s) (fontSizeMin s')
  && JS.strict_eq (fontSizePrev s) (fontSizePrev s').

(** [run fuel layout h]: the runs of the layout effect from [h] until the
    state stops changing; the result is the number of runs, the hook they
    leave and the trace; [None] when [fuel] runs were not enough. *)
Fixpoint run (fuel : nat) (layout : JS.number -> option HTMLElement) (h : Hook V)
  : option (nat * Hook V * list Event) :=
  match fuel with
  | O => None
  | S fuel' =>
      let '(_, h1, t1) := layoutEffect (layout (fontSize (state h))) h in
      if same_deps (state h) (state h1) then Some (1%nat, h1, t1)
      else
        match run fuel' layout h1 with
        | Some (n, h2, t2) => Some (S n, h2, t1 ++ t2)
        | None => None
        end
  end.

(** The state both triggers set: [{ ...initState(), calcKey: k + 1 }]. *)
Definition resetState (k : nat) : TState := with_calcKey (initState opts) (k + 1).

(* ------------------------------------------------------------------ *)
(** *** Vocabulary of the specification *)

(** "0 <= minFontSize < maxFontSize" *)
Definition valid_sizes : Prop :=
  0 <= minFontSize opts /\ minFontSize opts < maxFontSize opts.

(** "minFontSize < maxFontSize, resolution > 0" *)
Definition valid_configuration : Prop :=
  minFontSize opts < maxFontSize opts /\ 0 < resolution opts.

(** "bracketMin <= current <= bracketMax" *)
Definition bracket_invariant (s : TState) : Prop :=
  fontSizeMin s <= fontSize s /\ fontSize s <= fontSizeMax s.

(** "|current - previous| <= resolution" *)
Definition within_resolution (s : TState) : Prop :=
  JS.Math_abs (fontSize s - fontSizePrev s) <= resolution opts.

(** The search branch in the words of the specification. *)
Definition spec_search_step (overflow : bool) (s : TState) : TState :=
  let current := fontSize s in
  let previous := fontSizePrev s in
  let bracketMax := fontSizeMax s in
  let bracketMin := fontSizeMin s in
  let isAscending := JS.gt current previous in
  if overflow then
    let delta := if isAscending then previous - current else bracketMin - current in
    {| calcKey := calcKey s;
       fontSize := current + delta / JS.of_Z 2;
       fontSizePrev := current;
       fontSizeMax := JS.Math_min bracketMax current;
       fontSizeMin := bracketMin |}
  else
    let delta := if isAscending then bracketMax - current else previous - current in
    {| calcKey := calcKey s;
       fontSize := current + delta / JS.of_Z 2;
       fontSizePrev := current;
       fontSizeMax := bracketMax;
       fontSizeMin := JS.Math_max bracketMin current |}.

(** The number of halvings of [maxFontSize - minFontSize] that bring it
    down to [resolution]: the least [k] with
    [maxFontSize - minFontSize <= resolution * 2 ^ k], which is
    [ceil (log2 ((maxFontSize - minFontSize) / resolution))] when that is
    not negative and 0 otherwise. *)
Definition log2_steps : nat :=
  Z.to_nat (Z.log2_up (Qceiling ((maxFontSize opts - minFontSize opts) / resolution opts))).

End UseFitText.

Arguments Input V : clear implicits.

(** [2 ^ k] as a number. *)
Definition pow2 (k : nat) : JS.number := Qcpower (JS.of_Z 2) k.

Arguments pow2 : simpl never.

(** A search that takes [n] runs of the layout effect and leaves [h']. *)
Definition runs_in {V} (opts : TOptions) (layout : JS.number -> option HTMLElement)
  (h : Hook V) (n : nat) (h' : Hook V) (t : list Event) : Prop :=
  forall fuel, (n <= fuel)%nat -> run opts fuel layout h = Some (n, h', t).

(** The search from [h] ends within [bound] runs with both calculating
    flags cleared. *)
Definition terminates_within {V} (opts : TOptions) (layout : JS.number -> option HTMLElement)
  (h : Hook V) (bound : nat) : Prop :=
  exists n h' t,
    (n <= bound)%nat /\ runs_in opts layout h n h' t
    /\ isCalculating h' = false /\ isCalculatingRef h' = false.

(** The hook after [setState s]. *)
Definition with_state {V} (h : Hook V) (s : TState) : Hook V := hook_of (setState s h).

(** The hook after [isCalculatingRef.current = false; setCalculating(false)]. *)
Definition stopped {V} (h : Hook V) : Hook V :=
  hook_of (bind (write_isCalculatingRef false) (fun _ => setCalculating false) h).

(** The console output of a failed search. *)
Definition failure_log (opts : TOptions) : list Event :=
  if (LOG_LEVEL (logLevel opts) <=? LOG_LEVEL info)%nat
  then [Console info (failure_message opts)]
  else [].

(** The state set by the corrective step. *)
Definition corrected_state (s : TState) : TState := {|
  calcKey := calcKey s;
  fontSize := if JS.gt (fontSize s) (fontSizePrev s) then fontSizePrev s else fontSizeMin s;
  fontSizePrev := fontSizePrev s;
  fontSizeMax := fontSizeMax s;
  fontSizeMin := fontSizeMin s
|}.

(** The invariant of a search: the candidate and the candidate tested
    before it both lie in the bracket. *)
Definition search_invariant (s : TState) : Prop :=
  bracket_invariant s
  /\ fontSizeMin s <= fontSizePrev s /\ fontSizePrev s <= fontSizeMax s.

(** The state of a search that has overflowed at [maxFontSize]: the
    candidate is the middle of the bracket, the candidate before it is one
    of its ends, the bracket is wider than the resolution and is at most
    [2 ^ (j + 1)] resolutions wide. *)
Definition bisecting (opts : TOptions) (j : nat) (s : TState) : Prop :=
  calcKey s <> 0%nat
  /\ fontSize s = (fontSizeMin s + fontSizeMax s) / JS.of_Z 2
  /\ (fontSizePrev s = fontSizeMin s \/ fontSizePrev s = fontSizeMax s)
  /\ resolution opts < fontSizeMax s - fontSizeMin s
  /\ fontSizeMax s - fontSizeMin s <= resolution opts * pow2 (S j).

(* ------------------------------------------------------------------ *)
(** *** Concrete inputs *)

(** The defaults, with both callbacks supplied. *)
Definition observedOptions : TOptions := {|
  logLevel := warn;
  maxFontSize := JS.of_Z 100;
  minFontSize := JS.of_Z 20;
  onFinish := true;
  onStart := true;
  resolution := JS.of_Z 5
|}.

(** The same with [logLevel: "info"]. *)
Definition verboseOptions : TOptions := {|
  logLevel := info;
  maxFontSize := JS.of_Z 100;
  minFontSize := JS.of_Z 20;
  onFinish := true;
  onStart := true;
  resolution := JS.of_Z 5
|}.

(** Sizes that are closer together than the resolution. *)
Definition closeOptions : TOptions := {|
  logLevel := warn;
  maxFontSize := JS.of_Z 100;
  minFontSize := JS.of_Z 98;
  onFinish := true;
  onStart := true;
  resolution := JS.of_Z 5
|}.

(** A container of 100 x 40 whose content fits, and one whose content is
    56 high. *)
Definition fitting : HTMLElement :=
  {| scrollHeight := 40; offsetHeight := 40; scrollWidth := 100; offsetWidth := 100 |}.

Definition overflowing : HTMLElement :=
  {| scrollHeight := 56; offsetHeight := 40; scrollWidth := 100; offsetWidth := 100 |}.

(** The hook, with string dependencies, after the given inputs. *)
Definition after (opts : TOptions) (inputs : list (Input string)) : Hook string :=
  hook_of (replay opts inputs (mount opts)).

(** Mounted on a container, then resized: a search has just started. *)
Definition resized : list (Input string) :=
  [RunObserveEffect (Some fitting); ResizeNotification].

(** The same search after six measurements that all overflowed: the
    candidate is down at [minFontSize] and so is the one before it. *)
Definition exhausted : list (Input string) :=
  resized ++ repeat (RunLayoutEffect (Some overflowing)) 6.

(** The search after four overflowing measurements: candidate 25,
    previous 30. *)
Definition narrowed : list (Input string) :=
  resized ++ repeat (RunLayoutEffect (Some overflowing)) 4.

(** The layout of the scenario of the specification: the content fits up
    to 62 and overflows above. *)
Definition fits_up_to_62 (fontSize : JS.number) : option HTMLElement :=
  Some (if JS.gt fontSize (JS.of_Z 62) then overflowing else fitting).

(** A first search that found the text fitting at once, and then a render
    with a new dependency list: the dependency effect restarts the search. *)
Definition restarted_by_deps : list (Input string) :=
  resized
  ++ [RunLayoutEffect (Some fitting); RunLayoutEffect (Some fitting);
      RunDepsEffect ["new title"%string]].

(* ------------------------------------------------------------------ *)
(** *** Vocabulary of the further properties *)

(** What a successful search calls: [onFinish && onFinish(x)]. *)
Definition finish_trace (opts : TOptions) (x : JS.number) : list Event :=
  if onFinish opts then [Call_onFinish x] else [].

(** The search from [h] ends with the candidate [x], having called
    exactly [t], with both calculating flags cleared. *)
Definition ends_with {V} (opts : TOptions) (layout : JS.number -> option HTMLElement)
  (h : Hook V) (t : list Event) (x : JS.number) : Prop :=
  exists n h',
    runs_in opts layout h n h' t
    /\ fontSize (state h') = x
    /\ isCalculating h' = false /\ isCalculatingRef h' = false.

(** Content that fits at every font size up to [limit] and overflows at
    every larger one. *)
Definition fits_up_to (layout : JS.number -> option HTMLElement) (limit : JS.number) : Prop :=
  forall size, isOverflow (layout size) = true <-> limit < size.

(** The bracket lies within the configured sizes. *)
Definition within_configured_sizes (opts : TOptions) (s : TState) : Prop :=
  minFontSize opts <= fontSizeMin s /\ fontSizeMax s <= maxFontSize opts.

(** Where the candidate and the previous candidate sit in the bracket:
    the candidate is the middle, the upper end (after a reset) or the
    lower end (after a corrective step), and the previous one is an end. *)
Definition bracket_shape (s : TState) : Prop :=
  fontSizeMin s <= fontSizeMax s
  /\ ((fontSize s = (fontSizeMin s + fontSizeMax s) / JS.of_Z 2
       /\ (fontSizePrev s = fontSizeMin s \/ fontSizePrev s = fontSizeMax s))
      \/ (fontSize s = fontSizeMax s /\ fontSizePrev s = fontSizeMin s)
      \/ (fontSize s = fontSizeMin s
          /\ (fontSizePrev s = fontSizeMin s \/ fontSizePrev s = fontSizeMax s))).

(** The lower end of the bracket is the configured minimum or a size at
    which the content was found to fit. *)
Definition lower_end_untested_or_fits (opts : TOptions)
  (layout : JS.number -> option HTMLElement) (s : TState) : Prop :=
  fontSizeMin s = minFontSize opts \/ isOverflow (layout (fontSizeMin s)) = false.

(** An input that is not a resize notification. *)
Definition not_a_resize {V} (i : Input V) : Prop :=
  match i with
  | ResizeNotification => False
  | _ => True
  end.

(** A trigger: a resize notification or a run of the dependency effect. *)
Definition is_trigger {V} (i : Input V) : Prop :=
  match i with
  | ResizeNotification | RunDepsEffect _ => True
  | _ => False
  end.

(** The hook after [depsPrevRef.current = deps]. *)
Definition with_snapshot {V} (h : Hook V) (deps : list V) : Hook V :=
  hook_of (write_depsPrevRef (Some deps) h).

(** How the end of a search is decided between the middle [c] of the last
    bracket and its lower end [a]: the search ends at [c] when the content
    fits there, at [a] when it fits at [a] only, and fails at [a] when it
    overflows at both. *)
Definition decided_between {V} (opts : TOptions)
  (layout : JS.number -> option HTMLElement) (h : Hook V) (c a : JS.number) : Prop :=
  (isOverflow (layout c) = false -> ends_with opts layout h (finish_trace opts c) c)
  /\ (isOverflow (layout c) = true -> isOverflow (layout a) = false ->
      ends_with opts layout h (finish_trace opts a) a)
  /\ (isOverflow (layout c) = true -> isOverflow (layout a) = true ->
      ends_with opts layout h (failure_log opts) a).

(** A search whose layout may change from one measurement to the next:
    the [k]-th run of the layout effect measures what the [k]-th layout
    gives for the font size of that render.  [None] when the layouts run
    out before the state stops changing. *)
Fixpoint run_changing {V} (opts : TOptions)
  (layouts : list (JS.number -> option HTMLElement)) (h : Hook V)
  : option (nat * Hook V * list Event) :=
  match layouts with
  | [] => None
  | layout :: rest =>
      let '(_, h1, t1) := layoutEffect opts (layout (fontSize (state h))) h in
      if same_deps (state h) (state h1) then Some (1%nat, h1, t1)
      else
        match run_changing opts rest h1 with
        | Some (n, h2, t2) => Some (S n, h2, t1 ++ t2)
        | None => None
        end
  end.

(** Whatever is measured, the search from [h] ends within [n] runs of the
    layout effect with both calculating flags cleared. *)
Fixpoint settles_within {V} (opts : TOptions) (n : nat) (h : Hook V) : Prop :=
  match n with
  | O => False
  | S n' =>
      forall r : option HTMLElement,
        let h1 := hook_of (layoutEffect opts r h) in
        if same_deps (state h) (state h1)
        then isCalculating h1 = false /\ isCalculatingRef h1 = false
        else settles_within opts n' h1
  end.

(* ================================================================== *)
(** * Facts about numbers *)

(** Arithmetic on [Qc] is arithmetic on the underlying fraction, up to
    [Qeq]; order and equality goals are moved to [Q] and left to [lra]. *)

Lemma this_Q2Qc (q : Q) : (this (Q2Qc q) == q)%Q.
Proof. apply Qred_correct. Qed.

Lemma this_of_Z (z : Z) : (this (JS.of_Z z) == inject_Z z)%Q.
Proof. apply Qred_correct. Qed.

Lemma this_plus (x y : Qc) : (this (x + y) == this x + this y)%Q.
Proof. apply Qred_correct. Qed.

Lemma this_opp (x : Qc) : (this (- x) == - this x)%Q.
Proof. apply Qred_correct. Qed.

Lemma this_minus (x y : Qc) : (this (x - y) == this x - this y)%Q.
Proof. unfold Qcminus. rewrite this_plus, this_opp. reflexivity. Qed.

Lemma this_mult (x y : Qc) : (this (x * y) == this x * this y)%Q.
Proof. apply Qred_correct. Qed.

Lemma this_half (x : Qc) : (this (x / JS.of_Z 2) == this x * (1 # 2))%Q.
Proof.
  unfold Qcdiv, Qcinv. rewrite this_mult, this_Q2Qc, this_of_Z. reflexivity.
Qed.

Lemma Qc_eq_this (x y : Qc) : x = y -> (this x == this y)%Q.
Proof. intros ->. reflexivity. Qed.

Lemma Qc_neq_this (x y : Qc) : x <> y -> ~ (this x == this y)%Q.
Proof. intros H E. apply H, Qc_is_canon, E. Qed.

Create Rewrite HintDb qc2q.
#[global] Hint Rewrite this_half this_plus this_opp this_minus this_mult this_of_Z this_Q2Qc
  : qc2q.

Ltac qc_to_q :=
  repeat match goal with
  | H : @eq Qc _ _ |- _ => apply Qc_eq_this in H
  | H : @eq JS.number _ _ |- _ => apply Qc_eq_this in H
  | H : ~ @eq Qc _ _ |- _ => apply Qc_neq_this in H
  | H : ~ @eq JS.number _ _ |- _ => apply Qc_neq_this in H
  | |- @eq Qc _ _ => apply Qc_is_canon
  | |- @eq JS.number _ _ => apply Qc_is_canon
  | |- ~ @eq Qc _ _ => intro
  | |- ~ @eq JS.number _ _ => intro
  | |- ~ Qcle _ _ => intro
  | |- ~ Qclt _ _ => intro
  end;
  unfold Qcle, Qclt in *;
  autorewrite with qc2q in *;
  change (this 0) with 0%Q in *;
  change (inject_Z 2) with 2%Q in *.

Ltac qc_lra := qc_to_q; lra.

Lemma JS_le_true (x y : JS.number) : JS.le x y = true <-> x <= y.
Proof. apply Qle_bool_iff. Qed.

Lemma JS_le_false (x y : JS.number) : JS.le x y = false <-> y < x.
Proof.
  unfold JS.le, Qclt. rewrite <- Bool.not_true_iff_false, Qle_bool_iff.
  split; [apply Qnot_le_lt | apply Qlt_not_le].
Qed.

Lemma JS_gt_true (x y : JS.number) : JS.gt x y = true <-> y < x.
Proof. unfold JS.gt. rewrite Bool.negb_true_iff. apply JS_le_false. Qed.

Lemma JS_gt_false (x y : JS.number) : JS.gt x y = false <-> x <= y.
Proof. unfold JS.gt. rewrite Bool.negb_false_iff. apply JS_le_true. Qed.

Lemma JS_strict_eq_true (x y : JS.number) : JS.strict_eq x y = true <-> x = y.
Proof.
  unfold JS.strict_eq. rewrite Qeq_bool_iff.
  split; [apply Qc_is_canon | apply Qc_eq_this].
Qed.

Lemma JS_strict_eq_false (x y : JS.number) : JS.strict_eq x y = false <-> x <> y.
Proof.
  rewrite <- Bool.not_true_iff_false, JS_strict_eq_true. reflexivity.
Qed.

Lemma JS_strict_eq_refl (x : JS.number) : JS.strict_eq x x = true.
Proof. apply JS_strict_eq_true. reflexivity. Qed.

Lemma Math_abs_le (x r : JS.number) : JS.Math_abs x <= r <-> - r <= x /\ x <= r.
Proof.
  unfold JS.Math_abs. destruct (JS.le 0 x) eqn:E.
  - apply JS_le_true in E. split; [intros H; split | intros [_ H]]; qc_lra.
  - apply JS_le_false in E. split; [intros H; split | intros [H _]]; qc_lra.
Qed.

Lemma Math_min_le (x y : JS.number) : x <= y -> JS.Math_min x y = x.
Proof. intros H. unfold JS.Math_min. apply JS_le_true in H. rewrite H. reflexivity. Qed.

Lemma Math_min_ge (x y : JS.number) : y <= x -> JS.Math_min x y = y.
Proof.
  intros H. unfold JS.Math_min. destruct (JS.le x y) eqn:E; [|reflexivity].
  apply JS_le_true in E. qc_lra.
Qed.

Lemma Math_max_le (x y : JS.number) : x <= y -> JS.Math_max x y = y.
Proof. intros H. unfold JS.Math_max. apply JS_le_true in H. rewrite H. reflexivity. Qed.

Lemma Math_max_ge (x y : JS.number) : y <= x -> JS.Math_max x y = x.
Proof.
  intros H. unfold JS.Math_max. destruct (JS.le x y) eqn:E; [|reflexivity].
  apply JS_le_true in E. qc_lra.
Qed.

(* ================================================================== *)
(** * The branches of the layout effect *)

Section Branches.

Context {V : Type}.
Variable opts : TOptions.
Implicit Types (h : Hook V) (r : option HTMLElement).

Lemma within_resolution_true (s : TState) :
  JS.le (JS.Math_abs (fontSize s - fontSizePrev s)) (resolution opts) = true
  <-> within_resolution opts s.
Proof. apply JS_le_true. Qed.

Lemma within_resolution_false (s : TState) :
  JS.le (JS.Math_abs (fontSize s - fontSizePrev s)) (resolution opts) = false
  <-> ~ within_resolution opts s.
Proof.
  unfold within_resolution. rewrite <- JS_le_true.
  symmetry. apply Bool.not_true_iff_false.
Qed.

Ltac enter_layoutEffect Hk :=
  unfold layoutEffect, bind, render_state;
  apply Nat.eqb_neq in Hk; rewrite Hk.

(** Generation 0: the effect returns at once. *)
Lemma layoutEffect_idle r h :
  calcKey (state h) = 0%nat -> layoutEffect opts r h = (tt, h, []).
Proof.
  intros Hk. unfold layoutEffect, bind, render_state. rewrite Hk. reflexivity.
Qed.

(** The search branch. *)
Lemma layoutEffect_search r h :
  calcKey (state h) <> 0%nat ->
  ~ within_resolution opts (state h) ->
  layoutEffect opts r h
  = (tt, with_state h (spec_search_step (isOverflow r) (state h)), []).
Proof.
  intros Hk Hw. enter_layoutEffect Hk.
  apply within_resolution_false in Hw. rewrite Hw.
  unfold spec_search_step.
  destruct (isOverflow r), (JS.gt (fontSize (state h)) (fontSizePrev (state h)));
    reflexivity.
Qed.

(** The failure branch. *)
Lemma layoutEffect_failed r h :
  calcKey (state h) <> 0%nat ->
  within_resolution opts (state h) ->
  isOverflow r = true ->
  fontSize (state h) = fontSizePrev (state h) ->
  layoutEffect opts r h = (tt, stopped h, failure_log opts).
Proof.
  intros Hk Hw Ho He. enter_layoutEffect Hk.
  apply within_resolution_true in Hw. rewrite Hw, Ho.
  apply JS_strict_eq_true in He. rewrite He. cbn [andb].
  unfold failure_log.
  destruct (LOG_LEVEL (logLevel opts) <=? LOG_LEVEL info)%nat; reflexivity.
Qed.

(** The corrective branch. *)
Lemma layoutEffect_corrective r h :
  calcKey (state h) <> 0%nat ->
  within_resolution opts (state h) ->
  isOverflow r = true ->
  fontSize (state h) <> fontSizePrev (state h) ->
  layoutEffect opts r h = (tt, with_state h (corrected_state (state h)), []).
Proof.
  intros Hk Hw Ho He. enter_layoutEffect Hk.
  apply within_resolution_true in Hw. rewrite Hw, Ho.
  apply JS_strict_eq_false in He. rewrite He. reflexivity.
Qed.

(** The success branch. *)
Lemma layoutEffect_finished r h :
  calcKey (state h) <> 0%nat ->
  within_resolution opts (state h) ->
  isOverflow r = false ->
  layoutEffect opts r h
  = (tt, stopped h,
     if onFinish opts then [Call_onFinish (fontSize (state h))] else []).
Proof.
  intros Hk Hw Ho. enter_layoutEffect Hk.
  apply within_resolution_true in Hw. rewrite Hw, Ho. cbn [andb].
  destruct (onFinish opts); reflexivity.
Qed.

End Branches.

(* ================================================================== *)
(** * The measurement step, branch by branch *)

Section MeasurementStep.

Context {V : Type}.
Variable opts : TOptions.
Implicit Types (h : Hook V) (r : option HTMLElement).

Lemma same_deps_refl (s : TState) : same_deps s s = true.
Proof.
  unfold same_deps. rewrite Nat.eqb_refl, !JS_strict_eq_refl. reflexivity.
Qed.

(** A run of the effect that leaves the state as it was is the last one
    of its search. *)
Lemma run_last (layout : JS.number -> option HTMLElement) h h' t fuel :
  layoutEffect opts (layout (fontSize (state h))) h = (tt, h', t) ->
  state h' = state h ->
  run opts (S fuel) layout h = Some (1%nat, h', t).
Proof.
  intros E Hs. cbn [run]. rewrite E, Hs, same_deps_refl. reflexivity.
Qed.

(** C1.  In a measurement of an active search (generation > 0) whose last
    two candidates differ by more than the resolution, the next search
    state is the one the specification gives for the search branch:
    [current + delta / 2] with the stated [delta], previous = the
    candidate just tested, and the bracket narrowed on the side of the
    observation.  Nothing else changes and nothing is called. *)
Theorem C1_search_branch r h :
  calcKey (state h) <> 0%nat ->
  ~ within_resolution opts (state h) ->
  let result := layoutEffect opts r h in
  state (hook_of result) = spec_search_step (isOverflow r) (state h)
  /\ hook_of result = with_state h (spec_search_step (isOverflow r) (state h))
  /\ trace_of result = [].
Proof.
  intros Hk Hw result. subst result.
  rewrite (layoutEffect_search opts r h Hk Hw). repeat split.
Qed.

(** C2 (as amended).  In a measurement within the resolution whose content
    overflows while current = previous, the search fails: both calculating
    flags are cleared, the search state is kept, [onFinish] is not called,
    and the search ends with this run.  The message is written with
    [console.info] and names the configured [minFontSize]; it is written,
    once, when [logLevel] is [debug] or [info], and not at all at [warn],
    [error] or [none]. *)
Theorem C2_failure_step r h :
  calcKey (state h) <> 0%nat ->
  within_resolution opts (state h) ->
  isOverflow r = true ->
  fontSize (state h) = fontSizePrev (state h) ->
  let result := layoutEffect opts r h in
  isCalculating (hook_of result) = false
  /\ isCalculatingRef (hook_of result) = false
  /\ state (hook_of result) = state h
  /\ (forall x, ~ In (Call_onFinish x) (trace_of result))
  /\ ((LOG_LEVEL (logLevel opts) <= LOG_LEVEL info)%nat ->
      trace_of result
      = [Console info [JS.Lit "[use-fit-text] reached `minFontSize = ";
                       JS.Num (minFontSize opts);
                       JS.Lit "` without fitting text"]])
  /\ ((LOG_LEVEL info < LOG_LEVEL (logLevel opts))%nat -> trace_of result = [])
  /\ (forall layout fuel,
        layout (fontSize (state h)) = r ->
        run opts (S fuel) layout h = Some (1%nat, hook_of result, trace_of result)).
Proof.
  intros Hk Hw Ho He result.
  pose proof (layoutEffect_failed opts r h Hk Hw Ho He) as E.
  subst result. rewrite E. cbn [hook_of trace_of fst snd].
  repeat split.
  - intros x. unfold failure_log.
    destruct (LOG_LEVEL (logLevel opts) <=? LOG_LEVEL info)%nat; cbn;
      intuition discriminate.
  - intros Hl. unfold failure_log. apply Nat.leb_le in Hl. rewrite Hl. reflexivity.
  - intros Hl. unfold failure_log. apply Nat.leb_gt in Hl. rewrite Hl. reflexivity.
  - intros layout fuel Hr. apply run_last; [rewrite Hr; exact E | reflexivity].
Qed.


(** C10.  A terminating measurement (within the resolution, and either no
    overflow: success, or overflow with current = previous: failure)
    produces no new search state: the state is the one measured, so the
    returned [fontSize] is still the template of the candidate just tested
    followed by "%", and whatever is passed to [onFinish] is that same
    candidate. *)
Theorem C10_terminal_step_keeps_state r h :
  calcKey (state h) <> 0%nat ->
  within_resolution opts (state h) ->
  isOverflow r = false \/ fontSize (state h) = fontSizePrev (state h) ->
  let result := layoutEffect opts r h in
  state (hook_of result) = state h
  /\ result_fontSize (useFitText (hook_of result))
     = [JS.Num (fontSize (state h)); JS.Lit "%"]
  /\ result_fontSize (useFitText (hook_of result)) = result_fontSize (useFitText h)
  /\ (forall x, In (Call_onFinish x) (trace_of result) -> x = fontSize (state h))
  /\ (isOverflow r = false -> onFinish opts = true ->
      trace_of result = [Call_onFinish (fontSize (state h))])
  /\ isCalculating (hook_of result) = false
  /\ isCalculatingRef (hook_of result) = false.
Proof.
  intros Hk Hw Hcase result. subst result.
  destruct (isOverflow r) eqn:Ho.
  - destruct Hcase as [Hcase | He]; [discriminate |].
    rewrite (layoutEffect_failed opts r h Hk Hw Ho He).
    cbn [hook_of trace_of fst snd]. repeat split; try discriminate.
    intros x. unfold failure_log.
    destruct (LOG_LEVEL (logLevel opts) <=? LOG_LEVEL info)%nat; cbn;
      intuition discriminate.
  - rewrite (layoutEffect_finished opts r h Hk Hw Ho).
    cbn [hook_of trace_of fst snd]. repeat split.
    + intros x. destruct (onFinish opts); cbn; [|tauto].
      intros [E | []]. injection E as <-. reflexivity.
    + intros _ ->. reflexivity.
Qed.

End MeasurementStep.

(** The search branch at the first measurement of a search with the
    default sizes, 100 against 20, on an overflowing container. *)
Lemma C1_search_branch_witness :
  let h := after observedOptions resized in
  let result := layoutEffect observedOptions (Some overflowing) h in
  state (hook_of result) = spec_search_step true (state h)
  /\ hook_of result = with_state h (spec_search_step true (state h))
  /\ trace_of result = [].
Proof.
  apply (C1_search_branch observedOptions (Some overflowing)
           (after observedOptions resized)).
  - vm_compute. discriminate.
  - apply within_resolution_false. vm_compute. reflexivity.
Defined.

(** C2, as stated, fails at [logLevel: "warn"], the default: the
    measurement that ends an exhausted search (generation 1, candidate and
    previous both 20, content overflowing) writes nothing to the console at
    any level. *)
Lemma C2_counterexample :
  let h := after observedOptions exhausted in
  let result := layoutEffect observedOptions (Some overflowing) h in
  calcKey (state h) <> 0%nat
  /\ within_resolution observedOptions (state h)
  /\ isOverflow (Some overflowing) = true
  /\ fontSize (state h) = fontSizePrev (state h)
  /\ trace_of result = []
  /\ ~ (exists message, In (Console warn message) (trace_of result)).
Proof.
  cbv zeta. split; [|split; [|split; [|split; [|split]]]].
  - vm_compute. discriminate.
  - apply within_resolution_true. vm_compute. reflexivity.
  - reflexivity.
  - apply JS_strict_eq_true. vm_compute. reflexivity.
  - vm_compute. reflexivity.
  - vm_compute. intros [message []].
Qed.

(** The failure step at the same measurement with [logLevel: "info"]. *)
Lemma C2_failure_step_witness :
  let h := after verboseOptions exhausted in
  trace_of (layoutEffect verboseOptions (Some overflowing) h)
  = [Console info [JS.Lit "[use-fit-text] reached `minFontSize = ";
                   JS.Num (minFontSize verboseOptions);
                   JS.Lit "` without fitting text"]].
Proof.
  cbv zeta.
  apply (C2_failure_step verboseOptions (Some overflowing)
           (after verboseOptions exhausted)).
  - vm_compute. discriminate.
  - apply within_resolution_true. vm_compute. reflexivity.
  - reflexivity.
  - apply JS_strict_eq_true. vm_compute. reflexivity.
  - vm_compute. lia.
Defined.


(** The terminating step of the exhausted search. *)
Lemma C10_terminal_step_keeps_state_witness :
  let h := after observedOptions exhausted in
  state (hook_of (layoutEffect observedOptions (Some overflowing) h)) = state h.
Proof.
  cbv zeta.
  apply (C10_terminal_step_keeps_state observedOptions (Some overflowing)
           (after observedOptions exhausted)).
  - vm_compute. discriminate.
  - apply within_resolution_true. vm_compute. reflexivity.
  - right. apply JS_strict_eq_true. vm_compute. reflexivity.
Defined.

(* ================================================================== *)
(** * The triggers *)

Section Triggers.

Context {V : Type} `{Dequal V}.
Variable opts : TOptions.
Implicit Types (h : Hook V) (r : option HTMLElement).

(** While [isCalculatingRef.current] is set, a resize notification and a
    run of the dependency effect both return at once. *)
Lemma triggers_dropped_while_ref_set h deps :
  isCalculatingRef h = true ->
  handle opts ResizeNotification h = (tt, h, [])
  /\ depsEffect opts deps h = (tt, h, []).
Proof.
  intros Hb. split.
  - cbn [handle]. destruct (observing h); [|reflexivity].
    unfold ro, resizeCallback, bind, read_isCalculatingRef. rewrite Hb. reflexivity.
  - unfold depsEffect, bind, render_state, read_depsPrevRef, read_isCalculatingRef.
    rewrite Hb, Bool.orb_true_r. reflexivity.
Qed.

(** A resize notification that is not dropped starts a search: both flags
    are set and the state is the reset payload.  Its generation is always
    1, the captured [calcKey] being the one of the first render. *)
Lemma resize_starts_search h :
  isCalculatingRef h = false ->
  let result := ro opts h in
  state (hook_of result) = resetState opts 0
  /\ isCalculating (hook_of result) = true
  /\ isCalculatingRef (hook_of result) = true
  /\ trace_of result = if onStart opts then [Call_onStart] else [].
Proof.
  intros Hb. unfold ro, resizeCallback, bind, read_isCalculatingRef. rewrite Hb.
  destruct (onStart opts); repeat split.
Qed.

(** A dependency change that is not dropped starts a search as well, but
    sets the calculating state only: [isCalculatingRef.current] stays
    unset for the whole search. *)
Lemma deps_change_starts_search h deps :
  calcKey (state h) <> 0%nat ->
  isCalculatingRef h = false ->
  dequal (depsPrevRef h) (Some deps) = false ->
  let result := depsEffect opts deps h in
  state (hook_of result) = resetState opts (calcKey (state h))
  /\ isCalculating (hook_of result) = true
  /\ isCalculatingRef (hook_of result) = false
  /\ trace_of result = if onStart opts then [Call_onStart] else [].
Proof.
  intros Hk Hb Hd.
  unfold depsEffect, bind, render_state, read_depsPrevRef, read_isCalculatingRef.
  apply Nat.eqb_neq in Hk. rewrite Hk, Hb, Hd. cbn [orb negb].
  destruct (onStart opts); repeat split; exact Hb.
Qed.

(** C3 (as amended).  A run of the dependency effect that passes its
    guard (generation > 0 and [isCalculatingRef.current] not set) stores
    the new dependency list as the snapshot, whether or not the comparison
    restarted the search.  A run stopped by the guard (generation 0, or
    [isCalculatingRef.current] set) changes nothing: the snapshot stays
    as it was. *)
Theorem C3_snapshot_stored_past_the_guard h deps :
  (calcKey (state h) <> 0%nat -> isCalculatingRef h = false ->
   depsPrevRef (hook_of (depsEffect opts deps h)) = Some deps)
  /\ (calcKey (state h) = 0%nat \/ isCalculatingRef h = true ->
      depsEffect opts deps h = (tt, h, [])).
Proof.
  split.
  - intros Hk Hb.
    unfold depsEffect, bind, render_state, read_depsPrevRef, read_isCalculatingRef.
    apply Nat.eqb_neq in Hk. rewrite Hk, Hb. cbn [orb].
    destruct (negb (dequal (depsPrevRef h) (Some deps))), (onStart opts); reflexivity.
  - intros [Hk | Hb].
    + unfold depsEffect, bind, render_state, read_depsPrevRef, read_isCalculatingRef.
      rewrite Hk. reflexivity.
    + apply triggers_dropped_while_ref_set, Hb.
Qed.

(** A hook that has never had a container does nothing, whatever happens. *)
Lemma replay_unattached (inputs : list (Input V)) :
  Forall (fun i => attachment i = None) inputs ->
  replay opts inputs (mount opts) = (tt, mount opts, []).
Proof.
  induction 1 as [| i rest Hi _ IH]; [reflexivity |].
  cbn [replay]. unfold bind.
  assert (E : handle opts i (mount opts) = (tt, mount opts, [])).
  { destruct i as [r | | deps | r]; cbn [attachment] in Hi; subst; try reflexivity. }
  rewrite E, IH. reflexivity.
Qed.

(** C9 (as amended).  A missing container raises nothing.  Until a
    container has been attached every operation is a no-op: the hook stays
    as mounted and nothing is called; the measurement step is a no-op at
    generation 0 and the subscription effect does not subscribe.  In a
    search that is under way (generation > 0) the measurement step does
    run without a container: it measures "no overflow" and goes on as for
    content that fits. *)
Theorem C9_missing_container :
  (forall inputs : list (Input V),
      Forall (fun i => attachment i = None) inputs ->
      replay opts inputs (mount opts) = (tt, mount opts, []))
  /\ (forall h, calcKey (state h) = 0%nat -> layoutEffect opts None h = (tt, h, []))
  /\ (forall h, observeEffect None h = (tt, h, []))
  /\ (forall h el, isOverflow (Some el) = false ->
        layoutEffect opts None h = layoutEffect opts (Some el) h).
Proof.
  split; [exact replay_unattached |].
  split; [intros h Hk; apply layoutEffect_idle, Hk |].
  split; [reflexivity |].
  intros h el Ho. unfold layoutEffect. rewrite Ho. reflexivity.
Qed.

End Triggers.

(** C3, as stated, fails: at generation 0, and during a search started by
    a resize, the dependency effect returns before it stores the list. *)
Lemma C3_counterexample :
  depsPrevRef (hook_of (depsEffect observedOptions ["title"%string]
                          (mount observedOptions)))
  <> Some ["title"%string]
  /\ depsPrevRef (hook_of (depsEffect observedOptions ["title"%string]
                             (after observedOptions resized)))
     <> Some ["title"%string].
Proof. split; vm_compute; discriminate. Qed.

(** The dependency effect after a finished search: the list is stored. *)
Lemma C3_snapshot_stored_past_the_guard_witness :
  let h := after observedOptions
             (resized ++ [RunLayoutEffect (Some fitting); RunLayoutEffect (Some fitting)]) in
  depsPrevRef (hook_of (depsEffect observedOptions ["title"%string] h))
  = Some ["title"%string].
Proof.
  cbv zeta.
  apply (proj1 (C3_snapshot_stored_past_the_guard observedOptions _ _)).
  - vm_compute. discriminate.
  - reflexivity.
Defined.

(** C7, evaluated where it fails.  After the dependency effect has
    restarted the search, the exposed calculating flag is true but
    [isCalculatingRef.current] is not; a resize notification is then not
    dropped: [onStart] is called again and the search state is reset.
    Nor is a further dependency change. *)
Theorem C7_resize_during_deps_search :
  let h := after observedOptions restarted_by_deps in
  let resize := handle observedOptions ResizeNotification h in
  let change := handle observedOptions (RunDepsEffect ["newer title"%string]) h in
  result_isCalculating (useFitText h) = true
  /\ isCalculatingRef h = false
  /\ calcKey (state h) = 2%nat
  /\ trace_of resize = [Call_onStart]
  /\ state (hook_of resize) = resetState observedOptions 0
  /\ trace_of change = [Call_onStart]
  /\ state (hook_of change) = resetState observedOptions 2.
Proof. cbv zeta. repeat split. Qed.

(** The generation a resize installs is always 1.  When the sizes are
    within the resolution and the text fits, the search ends in its first
    measurement with the state the reset installed; the next resize then
    installs a state with the same dependencies, calculating set. *)
Example resize_can_install_the_same_state :
  let h := after closeOptions (resized ++ [RunLayoutEffect (Some fitting)]) in
  let h' := hook_of (handle closeOptions ResizeNotification h) in
  isCalculating h = false
  /\ isCalculating h' = true
  /\ same_deps (state h) (state h') = true.
Proof. cbv zeta. repeat split. Qed.

(** C9, as stated, fails at generation 1: a container that was observed
    and resized and is then detached leaves a search under way; the
    measurement step without a container changes the search state, and
    the one after it calls [onFinish]. *)
Lemma C9_counterexample :
  let h := after observedOptions resized in
  let h1 := hook_of (layoutEffect observedOptions None h) in
  calcKey (state h) = 1%nat
  /\ state h1 <> state h
  /\ exists x, trace_of (layoutEffect observedOptions None h1) = [Call_onFinish x].
Proof.
  cbv zeta. split; [reflexivity | split].
  - intros E. apply (f_equal (fun s => this (fontSizePrev s))) in E.
    vm_compute in E. discriminate.
  - eexists. vm_compute. reflexivity.
Qed.

(** A hook mounted without a container, rendered with a dependency list
    and laid out, stays as mounted. *)
Lemma C9_missing_container_witness :
  replay observedOptions
    [RunObserveEffect None; RunDepsEffect ["title"%string]; RunLayoutEffect None;
     ResizeNotification]
    (mount observedOptions)
  = (tt, mount observedOptions, []).
Proof.
  apply (proj1 (C9_missing_container observedOptions)).
  repeat constructor.
Defined.

(* ================================================================== *)
(** * The bracket invariant *)

Section Invariant.

Context {V : Type} `{Dequal V}.
Variable opts : TOptions.
Implicit Types (h : Hook V) (r : option HTMLElement) (s : TState).

(** Whether two candidates are within the resolution can be tested. *)
Lemma within_resolution_dec s :
  {within_resolution opts s} + {~ within_resolution opts s}.
Proof.
  destruct (JS.le (JS.Math_abs (fontSize s - fontSizePrev s)) (resolution opts)) eqn:E.
  - left. apply within_resolution_true, E.
  - right. apply within_resolution_false, E.
Qed.

(** Every run of the layout effect is one of: idle, terminating (state
    kept, at most one call), corrective, searching (nothing called). *)
Lemma layoutEffect_cases r h :
  (exists t, layoutEffect opts r h = (tt, h, t) /\ t = [])
  \/ (exists t, layoutEffect opts r h = (tt, stopped h, t) /\ (List.length t <= 1)%nat)
  \/ (within_resolution opts (state h)
      /\ layoutEffect opts r h = (tt, with_state h (corrected_state (state h)), []))
  \/ (~ within_resolution opts (state h)
      /\ layoutEffect opts r h
         = (tt, with_state h (spec_search_step (isOverflow r) (state h)), [])).
Proof.
  destruct (Nat.eq_dec (calcKey (state h)) 0) as [Hk | Hk].
  { left. eexists. split; [apply layoutEffect_idle, Hk | reflexivity]. }
  destruct (within_resolution_dec (state h)) as [Hw | Hw].
  2:{ right; right; right. split; [exact Hw | apply layoutEffect_search; assumption]. }
  destruct (isOverflow r) eqn:Ho.
  - destruct (JS.strict_eq (fontSize (state h)) (fontSizePrev (state h))) eqn:He.
    + apply JS_strict_eq_true in He. right; left. eexists.
      split; [apply layoutEffect_failed; assumption |].
      unfold failure_log.
      destruct (LOG_LEVEL (logLevel opts) <=? LOG_LEVEL info)%nat; cbn; lia.
    + apply JS_strict_eq_false in He. right; right; left.
      split; [exact Hw | apply layoutEffect_corrective; assumption].
  - right; left. eexists. split; [apply layoutEffect_finished; assumption |].
    destruct (onFinish opts); cbn; lia.
Qed.

Lemma corrected_state_invariant s :
  search_invariant s -> search_invariant (corrected_state s).
Proof.
  unfold search_invariant, bracket_invariant, corrected_state. cbn.
  intros [[H1 H2] [H3 H4]].
  destruct (JS.gt (fontSize s) (fontSizePrev s)); repeat split; qc_lra.
Qed.

Lemma spec_search_step_invariant overflow s :
  search_invariant s -> search_invariant (spec_search_step overflow s).
Proof.
  unfold search_invariant, bracket_invariant, spec_search_step.
  intros [[H1 H2] [H3 H4]].
  destruct overflow; cbn.
  - rewrite (Math_min_ge _ _ H2).
    destruct (JS.gt (fontSize s) (fontSizePrev s)) eqn:E;
      [apply JS_gt_true in E | apply JS_gt_false in E];
      repeat split; qc_lra.
  - rewrite (Math_max_le _ _ H1).
    destruct (JS.gt (fontSize s) (fontSizePrev s)) eqn:E;
      [apply JS_gt_true in E | apply JS_gt_false in E];
      repeat split; qc_lra.
Qed.

Lemma layoutEffect_invariant r h :
  search_invariant (state h) ->
  search_invariant (state (hook_of (layoutEffect opts r h))).
Proof.
  intros Hi.
  destruct (layoutEffect_cases r h)
    as [(t & E & _) | [(t & E & _) | [(_ & E) | (_ & E)]]]; rewrite E.
  - exact Hi.
  - exact Hi.
  - apply corrected_state_invariant, Hi.
  - apply spec_search_step_invariant, Hi.
Qed.

Lemma resetState_invariant k :
  minFontSize opts <= maxFontSize opts -> search_invariant (resetState opts k).
Proof.
  intros Hle. unfold search_invariant, bracket_invariant. cbn.
  repeat split; try assumption; apply Qcle_refl.
Qed.

Lemma handle_invariant (i : Input V) h :
  minFontSize opts <= maxFontSize opts ->
  search_invariant (state h) ->
  search_invariant (state (hook_of (handle opts i h))).
Proof.
  intros Hle Hi. destruct i as [r | | deps | r]; cbn [handle].
  - destruct r; exact Hi.
  - destruct (observing h); [| exact Hi].
    unfold ro, resizeCallback, bind, read_isCalculatingRef.
    destruct (isCalculatingRef h); [exact Hi |].
    destruct (onStart opts); apply (resetState_invariant 0 Hle).
  - unfold depsEffect, bind, render_state, read_depsPrevRef, read_isCalculatingRef.
    destruct ((calcKey (state h) =? 0)%nat || isCalculatingRef h); [exact Hi |].
    destruct (negb (dequal (depsPrevRef h) (Some deps))); [| exact Hi].
    destruct (onStart opts); apply (resetState_invariant (calcKey (state h)) Hle).
  - apply layoutEffect_invariant, Hi.
Qed.

Lemma replay_invariant (inputs : list (Input V)) h :
  minFontSize opts <= maxFontSize opts ->
  search_invariant (state h) ->
  search_invariant (state (hook_of (replay opts inputs h))).
Proof.
  intros Hle. revert h.
  induction inputs as [| i rest IH]; intros h Hi; [exact Hi |].
  cbn [replay]. unfold bind.
  pose proof (handle_invariant i h Hle Hi) as Hi'.
  destruct (handle opts i h) as [[[] h1] t1]. cbn [hook_of fst snd] in Hi'.
  specialize (IH h1 Hi').
  destruct (replay opts rest h1) as [[[] h2] t2]. exact IH.
Qed.

(** C4.  With 0 <= minFontSize < maxFontSize, bracketMin <= current <=
    bracketMax holds in the initial state, in the state every reset
    installs, and after every measurement step (idle, corrective,
    bisecting or terminating), resize notification and dependency
    effect: in every state the hook can reach. *)
Theorem C4_bracket_invariant :
  valid_sizes opts ->
  bracket_invariant (initState opts)
  /\ (forall k, bracket_invariant (resetState opts k))
  /\ (forall (inputs : list (Input V)),
        bracket_invariant (state (hook_of (replay opts inputs (mount opts)))))
  /\ (forall (inputs : list (Input V)) r,
        let h := hook_of (replay opts inputs (mount opts)) in
        bracket_invariant (state h) ->
        bracket_invariant (state (hook_of (layoutEffect opts r h)))).
Proof.
  intros [_ Hlt]. apply Qclt_le_weak in Hlt.
  assert (Hm : search_invariant (state (@mount V opts))).
  { unfold search_invariant, bracket_invariant. cbn.
    repeat split; try assumption; apply Qcle_refl. }
  split; [apply Hm |].
  split; [intros k; apply (resetState_invariant k Hlt) |].
  split; [intros inputs; apply (replay_invariant inputs _ Hlt Hm) |].
  intros inputs r h _. subst h.
  apply layoutEffect_invariant, (replay_invariant inputs _ Hlt Hm).
Qed.

End Invariant.

(** The invariant at the defaults, in the middle of a search. *)
Lemma C4_bracket_invariant_witness :
  bracket_invariant (state (after observedOptions narrowed)).
Proof.
  assert (Hv : valid_sizes observedOptions).
  { split; vm_compute; [discriminate | reflexivity]. }
  exact (proj1 (proj2 (proj2 (C4_bracket_invariant observedOptions Hv))) narrowed).
Defined.

(* ================================================================== *)
(** * Termination of a search *)

Section Termination.

Context {V : Type}.
Variable opts : TOptions.
Variable layout : JS.number -> option HTMLElement.
Hypothesis resolution_pos : 0 < resolution opts.
Implicit Types (h : Hook V) (s : TState).

Local Abbreviation measured h := (layout (fontSize (state h))).

Lemma runs_in_last h h' t :
  layoutEffect opts (measured h) h = (tt, h', t) ->
  state h' = state h ->
  runs_in opts layout h 1 h' t.
Proof.
  intros E Hs fuel Hf. destruct fuel as [| fuel]; [lia |].
  apply run_last; assumption.
Qed.

Lemma runs_in_step h h1 n h' t :
  layoutEffect opts (measured h) h = (tt, h1, []) ->
  same_deps (state h) (state h1) = false ->
  runs_in opts layout h1 n h' t ->
  runs_in opts layout h (S n) h' t.
Proof.
  intros E Hd Hr fuel Hf. destruct fuel as [| fuel]; [lia |].
  cbn [run]. rewrite E, Hd, (Hr fuel) by lia. reflexivity.
Qed.

Lemma terminates_within_mono h n m :
  (n <= m)%nat -> terminates_within opts layout h n -> terminates_within opts layout h m.
Proof.
  intros Hle (k & h' & t & Hk & Hr & Hc). exists k, h', t.
  split; [lia | split; assumption].
Qed.

Lemma same_deps_fontSize s s' :
  fontSize s <> fontSize s' -> same_deps s s' = false.
Proof.
  intros Hn. apply JS_strict_eq_false in Hn. unfold same_deps. rewrite Hn.
  destruct (calcKey s =? calcKey s')%nat; reflexivity.
Qed.

Lemma same_deps_fontSizePrev s s' :
  fontSizePrev s <> fontSizePrev s' -> same_deps s s' = false.
Proof.
  intros Hn. apply JS_strict_eq_false in Hn. unfold same_deps. rewrite Hn.
  repeat match goal with |- context [?b && _] => destruct b; cbn [andb] end;
    reflexivity.
Qed.

(** A measurement that finds the content fitting, within the resolution,
    ends the search. *)
Lemma terminates_finished h n :
  calcKey (state h) <> 0%nat ->
  within_resolution opts (state h) ->
  isOverflow (measured h) = false ->
  terminates_within opts layout h (S n).
Proof.
  intros Hk Hw Ho.
  exists 1%nat, (stopped h), (if onFinish opts then [Call_onFinish (fontSize (state h))] else []).
  split; [lia |]. split; [| split; reflexivity].
  apply runs_in_last; [apply layoutEffect_finished; assumption | reflexivity].
Qed.

(** When current = previous, the measurement ends the search one way or
    the other. *)
Lemma terminates_settled h n :
  calcKey (state h) <> 0%nat ->
  fontSize (state h) = fontSizePrev (state h) ->
  terminates_within opts layout h (S n).
Proof.
  intros Hk He.
  assert (Hw : within_resolution opts (state h)).
  { unfold within_resolution. apply Math_abs_le. rewrite He. split; qc_lra. }
  destruct (isOverflow (measured h)) eqn:Ho.
  - exists 1%nat, (stopped h), (failure_log opts).
    split; [lia |]. split; [| split; reflexivity].
    apply runs_in_last; [apply layoutEffect_failed; assumption | reflexivity].
  - apply terminates_finished; assumption.
Qed.

(** A corrective step that moves the candidate. *)
Lemma terminates_corrective h n :
  calcKey (state h) <> 0%nat ->
  within_resolution opts (state h) ->
  isOverflow (measured h) = true ->
  fontSize (state h) <> fontSizePrev (state h) ->
  fontSize (state h) <> fontSize (corrected_state (state h)) ->
  terminates_within opts layout (with_state h (corrected_state (state h))) n ->
  terminates_within opts layout h (S n).
Proof.
  intros Hk Hw Ho He Hmove (m & h' & t & Hm & Hr & Hc).
  exists (S m), h', t. split; [lia |]. split; [| exact Hc].
  apply runs_in_step with (h1 := with_state h (corrected_state (state h))).
  - apply layoutEffect_corrective; assumption.
  - apply same_deps_fontSize, Hmove.
  - exact Hr.
Qed.

(** A search step. *)
Lemma terminates_search h n :
  calcKey (state h) <> 0%nat ->
  ~ within_resolution opts (state h) ->
  terminates_within opts layout
    (with_state h (spec_search_step (isOverflow (measured h)) (state h))) n ->
  terminates_within opts layout h (S n).
Proof.
  intros Hk Hw (m & h' & t & Hm & Hr & Hc).
  exists (S m), h', t. split; [lia |]. split; [| exact Hc].
  eapply runs_in_step; [apply layoutEffect_search; assumption | | exact Hr].
  apply same_deps_fontSizePrev.
  cbn. unfold spec_search_step.
  assert (Hn : fontSizePrev (state h) <> fontSize (state h)).
  { intros E. apply Hw. unfold within_resolution. apply Math_abs_le.
    rewrite E. split; qc_lra. }
  destruct (isOverflow (measured h)); exact Hn.
Qed.

(** The end of a search, case by case.  First: the candidate is above
    the previous one, which is the lower end of the bracket, and they are
    within the resolution. *)
Lemma terminates_ascending_end h :
  calcKey (state h) <> 0%nat ->
  fontSizePrev (state h) = fontSizeMin (state h) ->
  fontSizeMin (state h) < fontSize (state h) ->
  fontSize (state h) - fontSizeMin (state h) <= resolution opts ->
  terminates_within opts layout h 2.
Proof.
  intros Hk Hp Hlt Hle.
  assert (Hw : within_resolution opts (state h)).
  { unfold within_resolution. apply Math_abs_le. rewrite Hp. split; qc_lra. }
  assert (Hgt : JS.gt (fontSize (state h)) (fontSizePrev (state h)) = true).
  { apply JS_gt_true. rewrite Hp. exact Hlt. }
  destruct (isOverflow (measured h)) eqn:Ho.
  - apply terminates_corrective; try assumption.
    + rewrite Hp. qc_lra.
    + cbn. rewrite Hgt, Hp. qc_lra.
    + apply terminates_settled; [exact Hk |]. cbn. rewrite Hgt. reflexivity.
  - apply terminates_finished; assumption.
Qed.

(** Second: the corrective step has put the candidate on the lower end
    of the bracket while the previous one is the upper end, more than one
    and at most two resolutions away. *)
Lemma terminates_from_lower_end h :
  calcKey (state h) <> 0%nat ->
  fontSize (state h) = fontSizeMin (state h) ->
  fontSizePrev (state h) = fontSizeMax (state h) ->
  resolution opts < fontSizeMax (state h) - fontSizeMin (state h) ->
  fontSizeMax (state h) - fontSizeMin (state h) <= JS.of_Z 2 * resolution opts ->
  terminates_within opts layout h 3.
Proof.
  intros Hk Hc Hp Hlt Hle.
  assert (Hw : ~ within_resolution opts (state h)).
  { unfold within_resolution. rewrite Math_abs_le, Hc, Hp. intros [Hw _]. qc_lra. }
  assert (Hgt : JS.gt (fontSize (state h)) (fontSizePrev (state h)) = false).
  { apply JS_gt_false. rewrite Hc, Hp. qc_lra. }
  apply terminates_search; try assumption.
  destruct (isOverflow (measured h)).
  - apply terminates_within_mono with (n := 1%nat); [lia |].
    apply terminates_settled; [exact Hk |].
    cbn. rewrite Hgt, Hc. qc_lra.
  - apply terminates_ascending_end; cbn; rewrite ?Hgt, ?Hc, ?Hp.
    + exact Hk.
    + symmetry. apply Math_max_le, Qcle_refl.
    + rewrite (Math_max_le _ _ (Qcle_refl _)). qc_lra.
    + rewrite (Math_max_le _ _ (Qcle_refl _)). qc_lra.
Qed.

(** Third: the candidate is the middle of a bracket wider than the
    resolution, the previous one is an end of it, and they are within the
    resolution. *)
Lemma terminates_bisection_end h :
  calcKey (state h) <> 0%nat ->
  fontSize (state h) = (fontSizeMin (state h) + fontSizeMax (state h)) / JS.of_Z 2 ->
  fontSizePrev (state h) = fontSizeMin (state h)
  \/ fontSizePrev (state h) = fontSizeMax (state h) ->
  resolution opts < fontSizeMax (state h) - fontSizeMin (state h) ->
  within_resolution opts (state h) ->
  terminates_within opts layout h 4.
Proof.
  intros Hk Hc Hp Hlt Hw.
  destruct (isOverflow (measured h)) eqn:Ho.
  2:{ apply terminates_finished; assumption. }
  pose proof Hw as Hw'. unfold within_resolution in Hw'.
  apply Math_abs_le in Hw'. destruct Hw' as [Hw1 Hw2].
  destruct Hp as [Hp | Hp].
  - assert (Hgt : JS.gt (fontSize (state h)) (fontSizePrev (state h)) = true).
    { apply JS_gt_true. rewrite Hp, Hc. qc_lra. }
    apply terminates_corrective; try assumption.
    + rewrite Hp, Hc. qc_lra.
    + cbn. rewrite Hgt, Hp, Hc. qc_lra.
    + apply terminates_within_mono with (n := 1%nat); [lia |].
      apply terminates_settled; [exact Hk |]. cbn. rewrite Hgt. reflexivity.
  - assert (Hgt : JS.gt (fontSize (state h)) (fontSizePrev (state h)) = false).
    { apply JS_gt_false. rewrite Hp, Hc. qc_lra. }
    apply terminates_corrective; try assumption.
    + rewrite Hp, Hc. qc_lra.
    + cbn. rewrite Hgt, Hc. qc_lra.
    + apply terminates_from_lower_end; cbn; rewrite ?Hgt; try assumption.
      * reflexivity.
      * rewrite Hp, Hc in Hw1. qc_lra.
Qed.

Lemma pow2_S (k : nat) : pow2 (S k) = JS.of_Z 2 * pow2 k.
Proof. reflexivity. Qed.

Lemma pow2_0 : pow2 0 = 1.
Proof. reflexivity. Qed.

(** A search step halves the bracket of a bisecting search and keeps the
    candidate in the middle. *)
Lemma spec_search_step_bisecting j overflow s :
  bisecting opts (S j) s ->
  ~ within_resolution opts s ->
  bisecting opts j (spec_search_step overflow s).
Proof.
  intros (Hk & Hc & Hp & Hlt & Hle) Hw.
  unfold bisecting.
  rewrite pow2_S in Hle. revert Hle. generalize (pow2 (S j)). intros P Hle.
  assert (Hhalf : resolution opts < (fontSizeMax s - fontSizeMin s) / JS.of_Z 2).
  { apply Qcnot_le_lt. intros Hn. apply Hw.
    unfold within_resolution. apply Math_abs_le.
    destruct Hp as [Hp | Hp]; rewrite Hp, Hc; split; qc_lra. }
  assert (Hmin : fontSizeMin s <= fontSize s) by (rewrite Hc; qc_lra).
  assert (Hmax : fontSize s <= fontSizeMax s) by (rewrite Hc; qc_lra).
  unfold spec_search_step.
  destruct overflow; cbn.
  - rewrite (Math_min_ge _ _ Hmax).
    assert (E : (if JS.gt (fontSize s) (fontSizePrev s)
                 then fontSizePrev s - fontSize s
                 else fontSizeMin s - fontSize s) = fontSizeMin s - fontSize s).
    { destruct (JS.gt (fontSize s) (fontSizePrev s)) eqn:Hgt; [| reflexivity].
      destruct Hp as [Hp | Hp]; rewrite Hp in *; [reflexivity |].
      apply JS_gt_true in Hgt. exfalso. qc_lra. }
    rewrite E. repeat split; try assumption; try (right; reflexivity);
      rewrite Hc in *; qc_lra.
  - rewrite (Math_max_le _ _ Hmin).
    assert (E : (if JS.gt (fontSize s) (fontSizePrev s)
                 then fontSizeMax s - fontSize s
                 else fontSizePrev s - fontSize s) = fontSizeMax s - fontSize s).
    { destruct (JS.gt (fontSize s) (fontSizePrev s)) eqn:Hgt; [reflexivity |].
      destruct Hp as [Hp | Hp]; rewrite Hp in *; [| reflexivity].
      apply JS_gt_false in Hgt. exfalso. qc_lra. }
    rewrite E. repeat split; try assumption; try (left; reflexivity);
      rewrite Hc in *; qc_lra.
Qed.

(** A bisecting search whose bracket is at most [2 ^ (j + 1)] resolutions
    wide ends within [j + 4] measurements. *)
Lemma bisecting_terminates j :
  forall h, bisecting opts j (state h) -> terminates_within opts layout h (j + 4).
Proof.
  induction j as [| j IH]; intros h Hb;
    destruct (within_resolution_dec opts (state h)) as [Hw | Hw].
  - destruct Hb as (Hk & Hc & Hp & Hlt & _).
    apply terminates_bisection_end; assumption.
  - exfalso. apply Hw. destruct Hb as (Hk & Hc & Hp & Hlt & Hle).
    rewrite pow2_S, pow2_0 in Hle.
    unfold within_resolution. apply Math_abs_le.
    destruct Hp as [Hp | Hp]; rewrite Hp, Hc; split; qc_lra.
  - destruct Hb as (Hk & Hc & Hp & Hlt & _).
    apply terminates_within_mono with (n := 4%nat); [lia |].
    apply terminates_bisection_end; assumption.
  - change (S j + 4)%nat with (S (j + 4)).
    apply terminates_search; [apply Hb | exact Hw |].
    apply IH. cbn. apply spec_search_step_bisecting; assumption.
Qed.

(** A search started by a reset ends within [k + 4] measurements when
    [maxFontSize - minFontSize] is at most [2 ^ k] resolutions. *)
Lemma reset_terminates h generation k :
  minFontSize opts < maxFontSize opts ->
  state h = resetState opts generation ->
  maxFontSize opts - minFontSize opts <= resolution opts * pow2 k ->
  terminates_within opts layout h (k + 4).
Proof.
  intros Hlt Hs Hle.
  assert (Hk : calcKey (state h) <> 0%nat) by (rewrite Hs; cbn; lia).
  assert (Hc : fontSize (state h) = maxFontSize opts) by (rewrite Hs; reflexivity).
  assert (Hp : fontSizePrev (state h) = minFontSize opts) by (rewrite Hs; reflexivity).
  assert (Hmx : fontSizeMax (state h) = maxFontSize opts) by (rewrite Hs; reflexivity).
  assert (Hmn : fontSizeMin (state h) = minFontSize opts) by (rewrite Hs; reflexivity).
  assert (Hgt : JS.gt (fontSize (state h)) (fontSizePrev (state h)) = true).
  { apply JS_gt_true. rewrite Hc, Hp. exact Hlt. }
  destruct (within_resolution_dec opts (state h)) as [Hw | Hw].
  { apply terminates_within_mono with (n := 2%nat); [lia |].
    unfold within_resolution in Hw. apply Math_abs_le in Hw. rewrite Hc, Hp in Hw.
    apply terminates_ascending_end; rewrite ?Hc, ?Hp, ?Hmn; tauto. }
  assert (Hwide : resolution opts < maxFontSize opts - minFontSize opts).
  { apply Qcnot_le_lt. intros Hn. apply Hw. unfold within_resolution.
    apply Math_abs_le. rewrite Hc, Hp. split; qc_lra. }
  destruct (isOverflow (measured h)) eqn:Ho.
  - destruct k as [| k].
    { exfalso. rewrite pow2_0 in Hle. qc_lra. }
    change (S k + 4)%nat with (S (k + 4)).
    apply terminates_search; [exact Hk | exact Hw |].
    apply bisecting_terminates. rewrite Ho. unfold bisecting, spec_search_step. cbn.
    rewrite Hgt, Hc, Hp, Hmx, Hmn.
    rewrite (Math_min_ge _ _ (Qcle_refl _)).
    repeat split; try assumption; try (right; reflexivity); qc_lra.
  - apply terminates_within_mono with (n := 2%nat); [lia |].
    apply terminates_search; [exact Hk | exact Hw |].
    rewrite Ho. apply terminates_settled; [exact Hk |].
    unfold spec_search_step. cbn. rewrite Hgt, Hc, Hmx. qc_lra.
Qed.

End Termination.

(* ================================================================== *)
(** * The number of measurements *)

Lemma this_pow2 (k : nat) : (this (pow2 k) == inject_Z (2 ^ Z.of_nat k))%Q.
Proof.
  induction k as [| k IH]; [reflexivity |].
  rewrite pow2_S, this_mult, this_of_Z, IH, <- inject_Z_mult.
  rewrite Nat2Z.inj_succ, Z.pow_succ_r by lia. reflexivity.
Qed.

Lemma le_pow2_log2_up (z : Z) : (z <= 2 ^ Z.log2_up z)%Z.
Proof.
  destruct (Z_lt_le_dec 1 z) as [Hz | Hz].
  - apply Z.log2_up_spec, Hz.
  - rewrite Z.log2_up_eqn0 by exact Hz. cbn. lia.
Qed.

Section Search.

Variable opts : TOptions.
Hypothesis resolution_pos : 0 < resolution opts.

(** [log2_steps] halvings are enough ... *)
Lemma log2_steps_enough :
  maxFontSize opts - minFontSize opts <= resolution opts * pow2 (log2_steps opts).
Proof.
  unfold log2_steps.
  set (x := ((maxFontSize opts - minFontSize opts) / resolution opts)%Q).
  assert (Hx : (x <= inject_Z (2 ^ Z.log2_up (Qceiling x)))%Q).
  { apply Qle_trans with (inject_Z (Qceiling x)); [apply Qle_ceiling |].
    rewrite <- Zle_Qle. apply le_pow2_log2_up. }
  assert (Hr : (0 < this (resolution opts))%Q) by exact resolution_pos.
  unfold Qcle.
  rewrite this_mult, this_pow2, this_minus, Z2Nat.id by apply Z.log2_up_nonneg.
  revert Hx. generalize (inject_Z (2 ^ Z.log2_up (Qceiling x))). intros p Hx.
  rewrite <- (Qmult_div_r (this (maxFontSize opts) - this (minFontSize opts))
                (this (resolution opts))) by lra.
  apply Qmult_le_l; assumption.
Qed.

(** ... and no smaller number is. *)
Lemma log2_steps_least (k : nat) :
  maxFontSize opts - minFontSize opts <= resolution opts * pow2 k ->
  (log2_steps opts <= k)%nat.
Proof.
  intros Hle. unfold log2_steps.
  set (x := ((maxFontSize opts - minFontSize opts) / resolution opts)%Q).
  assert (Hr : (0 < this (resolution opts))%Q) by exact resolution_pos.
  assert (Hx : (x <= inject_Z (2 ^ Z.of_nat k))%Q).
  { unfold Qcle in Hle. rewrite this_mult, this_pow2, this_minus in Hle.
    subst x. apply Qle_shift_div_r; [exact Hr |]. rewrite Qmult_comm. exact Hle. }
  apply Qceiling_resp_le in Hx. rewrite Qceiling_Z in Hx.
  destruct (Z_lt_le_dec 0 (Qceiling x)) as [Hz | Hz].
  - apply Z.log2_up_le_pow2 in Hx; [lia | exact Hz].
  - rewrite Z.log2_up_eqn0 by lia. cbn. lia.
Qed.

End Search.




(** The bound is reached at the defaults: with content that fits up to
    62 the search takes 4 + 4 measurements and reports 60. *)
Example default_search_takes_eight_runs :
  let h := after observedOptions resized in
  run observedOptions 7 fits_up_to_62 h = None
  /\ option_map (fun '(n, h', t) => (n, this (fontSize (state h')), List.length t))
       (run observedOptions 8 fits_up_to_62 h)
     = Some (8%nat, inject_Z 60, 1%nat)
  /\ log2_steps observedOptions = 4%nat.
Proof. cbv zeta. split; [| split]; vm_compute; reflexivity. Qed.



(* ================================================================== *)
(** * What a search calls *)


(* ================================================================== *)
(** * Further properties of the measurement step *)

Section StepProperties.

Context {V : Type}.
Variable opts : TOptions.
Implicit Types (h : Hook V) (r : option HTMLElement) (s : TState).

Lemma Math_min_le_l (x y : JS.number) : JS.Math_min x y <= x.
Proof.
  unfold JS.Math_min. destruct (JS.le x y) eqn:E.
  - apply Qcle_refl.
  - apply JS_le_false in E. apply Qclt_le_weak, E.
Qed.

Lemma Math_max_ge_l (x y : JS.number) : x <= JS.Math_max x y.
Proof.
  unfold JS.Math_max. destruct (JS.le x y) eqn:E.
  - apply JS_le_true, E.
  - apply Qcle_refl.
Qed.

(** A measurement step never widens the bracket and never changes the
    generation. *)
Lemma layoutEffect_narrows r h :
  let s := state h in
  let s' := state (hook_of (layoutEffect opts r h)) in
  fontSizeMax s' <= fontSizeMax s
  /\ fontSizeMin s <= fontSizeMin s'
  /\ calcKey s' = calcKey s.
Proof.
  cbv zeta.
  destruct (layoutEffect_cases opts r h)
    as [(t & E & _) | [(t & E & _) | [(_ & E) | (_ & E)]]]; rewrite E;
    cbn [hook_of fst snd].
  - repeat split; apply Qcle_refl.
  - repeat split; apply Qcle_refl.
  - repeat split; apply Qcle_refl.
  - unfold spec_search_step. destruct (isOverflow r); cbn.
    + split; [apply Math_min_le_l | split; [apply Qcle_refl | reflexivity]].
    + split; [apply Qcle_refl | split; [apply Math_max_ge_l | reflexivity]].
Qed.

(** X2.  A measurement step never starts anything: it does not call
    [onStart], it does not set a calculating flag that was clear, and it
    leaves the dependency snapshot and the subscription alone. *)
Theorem measurement_starts_nothing r h :
  let result := layoutEffect opts r h in
  ~ In Call_onStart (trace_of result)
  /\ (isCalculating (hook_of result) = true -> isCalculating h = true)
  /\ (isCalculatingRef (hook_of result) = true -> isCalculatingRef h = true)
  /\ depsPrevRef (hook_of result) = depsPrevRef h
  /\ observing (hook_of result) = observing h.
Proof.
  cbv zeta.
  destruct (Nat.eq_dec (calcKey (state h)) 0) as [Hk | Hk].
  { rewrite (layoutEffect_idle opts r h Hk). cbn. tauto. }
  destruct (within_resolution_dec opts (state h)) as [Hw | Hw].
  2:{ rewrite (layoutEffect_search opts r h Hk Hw). cbn. tauto. }
  destruct (isOverflow r) eqn:Ho.
  - destruct (JS.strict_eq (fontSize (state h)) (fontSizePrev (state h))) eqn:He.
    + apply JS_strict_eq_true in He.
      rewrite (layoutEffect_failed opts r h Hk Hw Ho He). cbn.
      unfold failure_log.
      destruct (LOG_LEVEL (logLevel opts) <=? LOG_LEVEL info)%nat; cbn;
        intuition discriminate.
    + apply JS_strict_eq_false in He.
      rewrite (layoutEffect_corrective opts r h Hk Hw Ho He). cbn. tauto.
  - rewrite (layoutEffect_finished opts r h Hk Hw Ho). cbn.
    destruct (onFinish opts); cbn; intuition discriminate.
Qed.

(** What a step that calls [onFinish] has measured. *)
Lemma onFinish_step r h x :
  In (Call_onFinish x) (trace_of (layoutEffect opts r h)) ->
  x = fontSize (state h)
  /\ isOverflow r = false
  /\ layoutEffect opts r h = (tt, stopped h, [Call_onFinish x]).
Proof.
  destruct (Nat.eq_dec (calcKey (state h)) 0) as [Hk | Hk].
  { rewrite (layoutEffect_idle opts r h Hk). intros []. }
  destruct (within_resolution_dec opts (state h)) as [Hw | Hw].
  2:{ rewrite (layoutEffect_search opts r h Hk Hw). intros []. }
  destruct (isOverflow r) eqn:Ho.
  - destruct (JS.strict_eq (fontSize (state h)) (fontSizePrev (state h))) eqn:He.
    + apply JS_strict_eq_true in He.
      rewrite (layoutEffect_failed opts r h Hk Hw Ho He). cbn.
      unfold failure_log.
      destruct (LOG_LEVEL (logLevel opts) <=? LOG_LEVEL info)%nat; cbn;
        intuition discriminate.
    + apply JS_strict_eq_false in He.
      rewrite (layoutEffect_corrective opts r h Hk Hw Ho He). intros [].
  - rewrite (layoutEffect_finished opts r h Hk Hw Ho). cbn.
    destruct (onFinish opts); cbn; [| intros []].
    intros [E | []]. injection E as <-. repeat split.
Qed.

(** What a step that writes to the console has measured. *)
Lemma console_step r h method message :
  In (Console method message) (trace_of (layoutEffect opts r h)) ->
  isOverflow r = true
  /\ fontSize (state h) = fontSizePrev (state h)
  /\ layoutEffect opts r h = (tt, stopped h, [Console info (failure_message opts)]).
Proof.
  destruct (Nat.eq_dec (calcKey (state h)) 0) as [Hk | Hk].
  { rewrite (layoutEffect_idle opts r h Hk). intros []. }
  destruct (within_resolution_dec opts (state h)) as [Hw | Hw].
  2:{ rewrite (layoutEffect_search opts r h Hk Hw). intros []. }
  destruct (isOverflow r) eqn:Ho.
  - destruct (JS.strict_eq (fontSize (state h)) (fontSizePrev (state h))) eqn:He.
    + apply JS_strict_eq_true in He.
      rewrite (layoutEffect_failed opts r h Hk Hw Ho He). cbn.
      unfold failure_log.
      destruct (LOG_LEVEL (logLevel opts) <=? LOG_LEVEL info)%nat; cbn; [| intros []].
      intros _. repeat split. exact He.
    + apply JS_strict_eq_false in He.
      rewrite (layoutEffect_corrective opts r h Hk Hw Ho He). intros [].
  - rewrite (layoutEffect_finished opts r h Hk Hw Ho). cbn.
    destruct (onFinish opts); cbn; intuition discriminate.
Qed.

End StepProperties.

(* ================================================================== *)
(** * Further invariants *)

Section MoreInvariants.

Context {V : Type} `{Dequal V}.
Variable opts : TOptions.
Implicit Types (h : Hook V) (r : option HTMLElement) (s : TState).

(** X1.  Within one generation the bracket only narrows: after any number
    of measurement steps, whatever they measure, fontSizeMax has not grown,
    fontSizeMin has not shrunk and the generation is the same. *)
Theorem bracket_never_widens (observations : list (option HTMLElement)) h :
  let s := state h in
  let s' := state (hook_of (replay opts (map RunLayoutEffect observations) h)) in
  fontSizeMax s' <= fontSizeMax s
  /\ fontSizeMin s <= fontSizeMin s'
  /\ calcKey s' = calcKey s.
Proof.
  cbv zeta. revert h.
  induction observations as [| r rest IH]; intros h.
  { cbn. repeat split; apply Qcle_refl. }
  cbn [map replay handle]. unfold bind.
  pose proof (layoutEffect_narrows opts r h) as Hstep. cbv zeta in Hstep.
  destruct (layoutEffect opts r h) as [[[] h1] t1]. cbn [hook_of fst snd] in Hstep.
  specialize (IH h1).
  destruct (replay opts (map RunLayoutEffect rest) h1) as [[[] h2] t2].
  cbn [hook_of fst snd] in *.
  destruct Hstep as (H1 & H2 & H3), IH as (H4 & H5 & H6).
  repeat split; [qc_lra | qc_lra | congruence].
Qed.

Lemma handle_within_configured_sizes (i : Input V) h :
  within_configured_sizes opts (state h) ->
  within_configured_sizes opts (state (hook_of (handle opts i h))).
Proof.
  intros Hi. destruct i as [r | | deps | r]; cbn [handle].
  - destruct r; exact Hi.
  - destruct (observing h); [| exact Hi].
    unfold ro, resizeCallback, bind, read_isCalculatingRef.
    destruct (isCalculatingRef h); [exact Hi |].
    destruct (onStart opts); split; apply Qcle_refl.
  - unfold depsEffect, bind, render_state, read_depsPrevRef, read_isCalculatingRef.
    destruct ((calcKey (state h) =? 0)%nat || isCalculatingRef h); [exact Hi |].
    destruct (negb (dequal (depsPrevRef h) (Some deps))); [| exact Hi].
    destruct (onStart opts); split; apply Qcle_refl.
  - pose proof (layoutEffect_narrows opts r h) as (H1 & H2 & _).
    destruct Hi as [H3 H4]. split; qc_lra.
Qed.

Lemma replay_within_configured_sizes (inputs : list (Input V)) h :
  within_configured_sizes opts (state h) ->
  within_configured_sizes opts (state (hook_of (replay opts inputs h))).
Proof.
  revert h. induction inputs as [| i rest IH]; intros h Hi; [exact Hi |].
  cbn [replay]. unfold bind.
  pose proof (handle_within_configured_sizes i h Hi) as Hi'.
  destruct (handle opts i h) as [[[] h1] t1]. cbn [hook_of fst snd] in Hi'.
  specialize (IH h1 Hi').
  destruct (replay opts rest h1) as [[[] h2] t2]. exact IH.
Qed.

(** X3.  With minFontSize <= maxFontSize, the font size the hook returns
    is never outside the configured sizes: in every state the hook can
    reach, minFontSize <= fontSizeMin <= fontSize <= fontSizeMax <=
    maxFontSize. *)
Theorem fontSize_within_configured_sizes (inputs : list (Input V)) :
  minFontSize opts <= maxFontSize opts ->
  let s := state (hook_of (replay opts inputs (mount opts))) in
  minFontSize opts <= fontSizeMin s
  /\ fontSizeMin s <= fontSize s
  /\ fontSize s <= fontSizeMax s
  /\ fontSizeMax s <= maxFontSize opts.
Proof.
  intros Hle. cbv zeta.
  assert (Hb : within_configured_sizes opts (state (@mount V opts))).
  { split; apply Qcle_refl. }
  assert (Hm : search_invariant (state (@mount V opts))).
  { unfold search_invariant, bracket_invariant. cbn.
    repeat split; try assumption; apply Qcle_refl. }
  pose proof (replay_within_configured_sizes inputs _ Hb) as [H1 H2].
  pose proof (replay_invariant opts inputs _ Hle Hm) as [[H3 H4] _].
  repeat split; assumption.
Qed.

End MoreInvariants.

(** The returned size at the defaults, in the middle of a search. *)
Lemma fontSize_within_configured_sizes_witness :
  let s := state (after observedOptions narrowed) in
  minFontSize observedOptions <= fontSize s /\ fontSize s <= maxFontSize observedOptions.
Proof.
  assert (Hle : minFontSize observedOptions <= maxFontSize observedOptions).
  { vm_compute. discriminate. }
  destruct (fontSize_within_configured_sizes observedOptions narrowed Hle)
    as (H1 & H2 & H3 & H4).
  cbv zeta. unfold after. split.
  - exact (Qcle_trans _ _ _ H1 H2).
  - exact (Qcle_trans _ _ _ H3 H4).
Defined.

(* ================================================================== *)
(** * The shape of the search state *)

Section Shape.

Context {V : Type} `{Dequal V}.
Variable opts : TOptions.
Implicit Types (h : Hook V) (r : option HTMLElement) (s : TState).

Ltac shape_ends := first [left; qc_lra | right; qc_lra].

Ltac solve_shape :=
  split;
  [ qc_lra
  | first [ left; split; [qc_lra | shape_ends]
          | right; left; split; qc_lra
          | right; right; split; [qc_lra | shape_ends] ] ].

Lemma bracket_shape_bounds s :
  bracket_shape s -> fontSizeMin s <= fontSize s /\ fontSize s <= fontSizeMax s.
Proof.
  intros [Hle [[Hc _] | [[Hc _] | [Hc _]]]]; split; qc_lra.
Qed.

Lemma spec_search_step_shape overflow s :
  bracket_shape s -> bracket_shape (spec_search_step overflow s).
Proof.
  intros Hs. destruct (bracket_shape_bounds s Hs) as [Hmin Hmax].
  destruct Hs as [Hle Hs].
  unfold spec_search_step, bracket_shape.
  destruct overflow; cbn;
    rewrite ?(Math_min_ge _ _ Hmax), ?(Math_max_le _ _ Hmin);
    (destruct (JS.gt (fontSize s) (fontSizePrev s)) eqn:Hgt;
     [apply JS_gt_true in Hgt | apply JS_gt_false in Hgt]);
    destruct Hs as [[Hc [Hp | Hp]] | [[Hc Hp] | [Hc [Hp | Hp]]]];
    first [solve_shape | exfalso; qc_lra].
Qed.

Lemma corrected_state_shape s :
  bracket_shape s -> bracket_shape (corrected_state s).
Proof.
  intros Hs. destruct (bracket_shape_bounds s Hs) as [Hmin Hmax].
  destruct Hs as [Hle Hs].
  unfold corrected_state, bracket_shape. cbn.
  (destruct (JS.gt (fontSize s) (fontSizePrev s)) eqn:Hgt;
   [apply JS_gt_true in Hgt | apply JS_gt_false in Hgt]);
    destruct Hs as [[Hc [Hp | Hp]] | [[Hc Hp] | [Hc [Hp | Hp]]]];
    first [solve_shape | exfalso; qc_lra].
Qed.

Lemma layoutEffect_shape r h :
  bracket_shape (state h) -> bracket_shape (state (hook_of (layoutEffect opts r h))).
Proof.
  intros Hs.
  destruct (layoutEffect_cases opts r h)
    as [(t & E & _) | [(t & E & _) | [(_ & E) | (_ & E)]]]; rewrite E.
  - exact Hs.
  - exact Hs.
  - apply corrected_state_shape, Hs.
  - apply spec_search_step_shape, Hs.
Qed.

Lemma resetState_shape k :
  minFontSize opts <= maxFontSize opts -> bracket_shape (resetState opts k).
Proof.
  intros Hle. split; [exact Hle |]. right; left. split; reflexivity.
Qed.

Lemma handle_shape (i : Input V) h :
  minFontSize opts <= maxFontSize opts ->
  bracket_shape (state h) -> bracket_shape (state (hook_of (handle opts i h))).
Proof.
  intros Hle Hi. destruct i as [r | | deps | r]; cbn [handle].
  - destruct r; exact Hi.
  - destruct (observing h); [| exact Hi].
    unfold ro, resizeCallback, bind, read_isCalculatingRef.
    destruct (isCalculatingRef h); [exact Hi |].
    destruct (onStart opts); apply (resetState_shape 0 Hle).
  - unfold depsEffect, bind, render_state, read_depsPrevRef, read_isCalculatingRef.
    destruct ((calcKey (state h) =? 0)%nat || isCalculatingRef h); [exact Hi |].
    destruct (negb (dequal (depsPrevRef h) (Some deps))); [| exact Hi].
    destruct (onStart opts); apply (resetState_shape (calcKey (state h)) Hle).
  - apply layoutEffect_shape, Hi.
Qed.

Lemma replay_shape (inputs : list (Input V)) h :
  minFontSize opts <= maxFontSize opts ->
  bracket_shape (state h) -> bracket_shape (state (hook_of (replay opts inputs h))).
Proof.
  intros Hle. revert h.
  induction inputs as [| i rest IH]; intros h Hi; [exact Hi |].
  cbn [replay]. unfold bind.
  pose proof (handle_shape i h Hle Hi) as Hi'.
  destruct (handle opts i h) as [[[] h1] t1]. cbn [hook_of fst snd] in Hi'.
  specialize (IH h1 Hi').
  destruct (replay opts rest h1) as [[[] h2] t2]. exact IH.
Qed.

Lemma bracket_shape_settled s :
  bracket_shape s -> fontSize s = fontSizePrev s -> fontSize s = fontSizeMin s.
Proof.
  intros [Hle [[Hc [Hp | Hp]] | [[Hc Hp] | [Hc _]]]] He; qc_lra.
Qed.

End Shape.

(* ================================================================== *)
(** * What the outcome of a search says about the content *)

Section Outcome.

Context {V : Type} `{Dequal V}.
Variable opts : TOptions.
Variable layout : JS.number -> option HTMLElement.
Implicit Types (h : Hook V) (s : TState).

(** X4.  The search is a bisection: with minFontSize <= maxFontSize, in
    every state the hook can reach the candidate is the middle of the
    bracket or one of its ends, and the previous candidate is one of its
    ends. *)
Theorem search_is_a_bisection (inputs : list (Input V)) :
  minFontSize opts <= maxFontSize opts ->
  bracket_shape (state (hook_of (replay opts inputs (mount opts)))).
Proof.
  intros Hle. apply replay_shape; [exact Hle |].
  split; [exact Hle |]. right; left. split; reflexivity.
Qed.

(** X5.  [onFinish] is only ever called with a size at which the content
    was measured and did not overflow: whatever the layout and wherever
    the search starts, a call [onFinish(x)] reports the font size the
    search ends with, the content does not overflow at [x], and both
    calculating flags are cleared. *)
Theorem onFinish_reports_a_fitting_size (fuel : nat) :
  forall h h' n t x,
    run opts fuel layout h = Some (n, h', t) ->
    In (Call_onFinish x) t ->
    x = fontSize (state h')
    /\ isOverflow (layout x) = false
    /\ t = [Call_onFinish x]
    /\ isCalculating h' = false
    /\ isCalculatingRef h' = false.
Proof.
  induction fuel as [| fuel IH]; intros h h' n t x Hrun Hin; [discriminate |].
  cbn [run] in Hrun.
  destruct (layoutEffect_cases opts (layout (fontSize (state h))) h)
    as [(t0 & E & Ht) | [(t0 & E & Ht) | [(_ & E) | (_ & E)]]];
    rewrite E in Hrun.
  - rewrite same_deps_refl in Hrun. injection Hrun as _ _ <-. subst t0.
    destruct Hin.
  - change (state (stopped h)) with (state h) in Hrun.
    rewrite same_deps_refl in Hrun. injection Hrun as _ <- <-.
    assert (Hin1 : In (Call_onFinish x)
                     (trace_of (layoutEffect opts (layout (fontSize (state h))) h)))
      by (rewrite E; exact Hin).
    destruct (onFinish_step opts _ _ _ Hin1) as (Hx & Ho & E').
    rewrite E in E'. injection E' as ->.
    subst x. repeat split. exact Ho.
  - destruct (same_deps _ _); [injection Hrun as _ _ <-; destruct Hin |].
    destruct (run opts fuel layout _) as [[[n2 h2] t2] |] eqn:R; [| discriminate].
    injection Hrun as _ <- <-. apply (IH _ _ _ _ _ R Hin).
  - destruct (same_deps _ _); [injection Hrun as _ _ <-; destruct Hin |].
    destruct (run opts fuel layout _) as [[[n2 h2] t2] |] eqn:R; [| discriminate].
    injection Hrun as _ <- <-. apply (IH _ _ _ _ _ R Hin).
Qed.

Lemma lower_end_after_search_step s :
  fontSizeMin s <= fontSize s ->
  lower_end_untested_or_fits opts layout s ->
  lower_end_untested_or_fits opts layout
    (spec_search_step (isOverflow (layout (fontSize s))) s).
Proof.
  intros Hmin Hj. unfold lower_end_untested_or_fits, spec_search_step.
  destruct (isOverflow (layout (fontSize s))) eqn:Ho; cbn; [exact Hj |].
  rewrite (Math_max_le _ _ Hmin). right. exact Ho.
Qed.

(** A search that writes the failure message has overflowed at the lower
    end of its bracket, which no measurement has raised. *)
Lemma failure_at_lower_end (fuel : nat) :
  forall h h' n t method message,
    bracket_shape (state h) ->
    lower_end_untested_or_fits opts layout (state h) ->
    run opts fuel layout h = Some (n, h', t) ->
    In (Console method message) t ->
    fontSize (state h') = minFontSize opts
    /\ isOverflow (layout (minFontSize opts)) = true
    /\ t = [Console info (failure_message opts)]
    /\ isCalculating h' = false
    /\ isCalculatingRef h' = false.
Proof.
  induction fuel as [| fuel IH]; intros h h' n t method message Hs Hj Hrun Hin;
    [discriminate |].
  cbn [run] in Hrun.
  destruct (layoutEffect_cases opts (layout (fontSize (state h))) h)
    as [(t0 & E & Ht) | [(t0 & E & Ht) | [(_ & E) | (_ & E)]]];
    rewrite E in Hrun.
  - rewrite same_deps_refl in Hrun. injection Hrun as _ _ <-. subst t0.
    destruct Hin.
  - change (state (stopped h)) with (state h) in Hrun.
    rewrite same_deps_refl in Hrun. injection Hrun as _ <- <-.
    assert (Hin1 : In (Console method message)
                     (trace_of (layoutEffect opts (layout (fontSize (state h))) h)))
      by (rewrite E; exact Hin).
    destruct (console_step opts _ _ _ _ Hin1) as (Ho & He & E').
    rewrite E in E'. injection E' as ->.
    pose proof (bracket_shape_settled _ Hs He) as Hlow.
    assert (Hm : fontSizeMin (state h) = minFontSize opts).
    { destruct Hj as [Hj | Hj]; [exact Hj |].
      rewrite <- Hlow, Ho in Hj. discriminate. }
    change (state (stopped h)) with (state h).
    rewrite <- Hm, <- Hlow. repeat split. exact Ho.
  - destruct (same_deps _ _); [injection Hrun as _ _ <-; destruct Hin |].
    destruct (run opts fuel layout _) as [[[n2 h2] t2] |] eqn:R; [| discriminate].
    injection Hrun as _ <- <-.
    apply (IH (with_state h (corrected_state (state h))) _ _ _ _ _
             (corrected_state_shape _ Hs) Hj R Hin).
  - destruct (same_deps _ _); [injection Hrun as _ _ <-; destruct Hin |].
    destruct (run opts fuel layout _) as [[[n2 h2] t2] |] eqn:R; [| discriminate].
    injection Hrun as _ <- <-.
    refine (IH (with_state h (spec_search_step _ (state h))) _ _ _ _ _
              (spec_search_step_shape _ _ Hs) _ R Hin).
    apply lower_end_after_search_step; [| exact Hj].
    apply (bracket_shape_bounds _ Hs).
Qed.

(** X6.  The failure message means what it says: with minFontSize <=
    maxFontSize, a search started by a reset writes it only if the content
    overflows at minFontSize itself, and the search then ends at
    minFontSize without calling [onFinish]. *)
Theorem failure_means_overflow_at_minFontSize (fuel generation : nat) h h' n t
    method message :
  minFontSize opts <= maxFontSize opts ->
  state h = resetState opts generation ->
  run opts fuel layout h = Some (n, h', t) ->
  In (Console method message) t ->
  fontSize (state h') = minFontSize opts
  /\ isOverflow (layout (minFontSize opts)) = true
  /\ t = [Console info (failure_message opts)]
  /\ isCalculating h' = false
  /\ isCalculatingRef h' = false.
Proof.
  intros Hle Hs. apply failure_at_lower_end; rewrite Hs.
  - apply resetState_shape, Hle.
  - left. reflexivity.
Qed.

End Outcome.

(* ================================================================== *)
(** * Further properties of the triggers *)

Section MoreTriggers.

Context {V : Type} `{Dequal V}.
Variable opts : TOptions.
Implicit Types (h : Hook V) (r : option HTMLElement).

(** X11.  While [isCalculatingRef.current] is set, triggers are dropped,
    however many arrive: any sequence of resize notifications and runs of
    the dependency effect leaves the hook as it was and calls nothing. *)
Theorem triggers_dropped_during_search (triggers : list (Input V)) h :
  isCalculatingRef h = true ->
  Forall is_trigger triggers ->
  replay opts triggers h = (tt, h, []).
Proof.
  intros Hb Ht. induction Ht as [| i rest Hi _ IH]; [reflexivity |].
  cbn [replay]. unfold bind.
  assert (E : handle opts i h = (tt, h, [])).
  { destruct i as [r | | deps | r]; try contradiction.
    - apply (triggers_dropped_while_ref_set opts h []), Hb.
    - apply (triggers_dropped_while_ref_set opts h deps), Hb. }
  rewrite E, IH. reflexivity.
Qed.

(** X12.  Resize notifications coalesce: any number of notifications handled
    one after the other, with no measurement in between, do what the first
    of them does; at most one search is started and [onStart] is called at
    most once. *)
Theorem resize_notifications_coalesce (n : nat) h :
  replay opts (repeat ResizeNotification (S n)) h = handle opts ResizeNotification h.
Proof.
  assert (Hdrop : forall k h0,
             isCalculatingRef h0 = true \/ observing h0 = false ->
             replay opts (repeat ResizeNotification k) h0 = (tt, h0, [])).
  { induction k as [| k IH]; intros h0 Hc; [reflexivity |].
    cbn [repeat replay]. unfold bind.
    assert (E : handle opts ResizeNotification h0 = (tt, h0, [])).
    { destruct Hc as [Hb | Hob].
      - apply (triggers_dropped_while_ref_set opts h0 []), Hb.
      - cbn [handle]. rewrite Hob. reflexivity. }
    rewrite E, (IH h0 Hc). reflexivity. }
  cbn [repeat replay]. unfold bind.
  destruct (handle opts ResizeNotification h) as [[[] h1] t1] eqn:E.
  assert (Hc : isCalculatingRef h1 = true \/ observing h1 = false).
  { cbn [handle] in E. destruct (observing h) eqn:Hob.
    - unfold ro, resizeCallback, bind, read_isCalculatingRef in E.
      destruct (isCalculatingRef h) eqn:Hb.
      + injection E as <- _. left. exact Hb.
      + destruct (onStart opts); injection E as <- _; left; reflexivity.
    - injection E as <- _. right. exact Hob. }
  rewrite (Hdrop n h1 Hc), app_nil_r. reflexivity.
Qed.

(** X13.  Nothing is calculated before the first resize notification:
    whatever effects run, as long as no resize notification has been
    handled the state is the initial one (generation 0), nothing has been
    called, both calculating flags are clear, and the dependency lists
    seen so far have not even been recorded. *)
Theorem no_search_before_first_resize (inputs : list (Input V)) :
  Forall not_a_resize inputs ->
  let result := replay opts inputs (mount opts) in
  state (hook_of result) = initState opts
  /\ trace_of result = []
  /\ isCalculating (hook_of result) = false
  /\ isCalculatingRef (hook_of result) = false
  /\ depsPrevRef (hook_of result) = None.
Proof.
  intros Hin. cbv zeta.
  assert (Hgen : forall h,
             state h = initState opts -> isCalculating h = false ->
             isCalculatingRef h = false -> depsPrevRef h = None ->
             let result := replay opts inputs h in
             state (hook_of result) = initState opts
             /\ trace_of result = []
             /\ isCalculating (hook_of result) = false
             /\ isCalculatingRef (hook_of result) = false
             /\ depsPrevRef (hook_of result) = None).
  { induction Hin as [| i rest Hi _ IH]; intros h Hs Hc Hb Hd; cbv zeta.
    { cbn. tauto. }
    cbn [replay]. unfold bind.
    assert (E : exists h1, handle opts i h = (tt, h1, [])
                           /\ state h1 = initState opts /\ isCalculating h1 = false
                           /\ isCalculatingRef h1 = false /\ depsPrevRef h1 = None).
    { destruct i as [r | | deps | r]; try contradiction.
      - destruct r; eexists; (split; [reflexivity | cbn; tauto]).
      - exists h. split; [| tauto].
        unfold handle, depsEffect, bind, render_state, read_depsPrevRef,
          read_isCalculatingRef.
        rewrite Hs. reflexivity.
      - exists h. split; [| tauto].
        apply layoutEffect_idle. rewrite Hs. reflexivity. }
    destruct E as (h1 & E & Hs1 & Hc1 & Hb1 & Hd1). rewrite E.
    specialize (IH h1 Hs1 Hc1 Hb1 Hd1). cbv zeta in IH.
    destruct (replay opts rest h1) as [[[] h2] t2]. exact IH. }
  apply Hgen; reflexivity.
Qed.

Lemma depsEffect_snapshot (deps : @DependencyList V) h :
  calcKey (state h) <> 0%nat ->
  isCalculatingRef h = false ->
  depsPrevRef (hook_of (depsEffect opts deps h)) = Some deps.
Proof.
  intros Hk Hb.
  unfold depsEffect, bind, render_state, read_depsPrevRef, read_isCalculatingRef.
  apply Nat.eqb_neq in Hk. rewrite Hk, Hb. cbn [orb].
  destruct (negb (dequal (depsPrevRef h) (Some deps))), (onStart opts); reflexivity.
Qed.

(** X14.  A changed dependency list restarts the search exactly once.  Past
    the guard, a run of the dependency effect whose list differs from the
    snapshot calls [onStart] (when supplied), sets the calculating state
    and installs the reset state with the generation raised by one; a
    second run with a list equal to the first restarts nothing and only
    replaces the snapshot. *)
Theorem dependency_change_restarts_once (deps deps' : list V) h :
  calcKey (state h) <> 0%nat ->
  isCalculatingRef h = false ->
  dequal (depsPrevRef h) (Some deps) = false ->
  dequal deps deps' = true ->
  let first := depsEffect opts deps h in
  let second := depsEffect opts deps' (hook_of first) in
  trace_of first = (if onStart opts then [Call_onStart] else [])
  /\ state (hook_of first) = resetState opts (calcKey (state h))
  /\ isCalculating (hook_of first) = true
  /\ depsPrevRef (hook_of first) = Some deps
  /\ second = (tt, with_snapshot (hook_of first) deps', []).
Proof.
  intros Hk Hb Hd Heq. cbv zeta.
  destruct (deps_change_starts_search opts h deps Hk Hb Hd) as (Hs & Hc & Hb' & Ht).
  pose proof (depsEffect_snapshot deps h Hk Hb) as Hsnap.
  repeat split; try assumption.
  set (h1 := hook_of (depsEffect opts deps h)) in *.
  unfold depsEffect at 1. unfold bind, render_state, read_depsPrevRef, read_isCalculatingRef.
  rewrite Hs, Hb', Hsnap. cbn [resetState with_calcKey calcKey initState].
  replace (calcKey (state h) + 1 =? 0)%nat with false
    by (symmetry; apply Nat.eqb_neq; lia).
  cbn [orb].
  change (dequal (Some deps) (Some deps')) with (dequal deps deps').
  rewrite Heq. reflexivity.
Qed.

End MoreTriggers.

(* ================================================================== *)
(** * Where a search ends *)

Lemma fits_up_to_false (layout : JS.number -> option HTMLElement)
    (limit size : JS.number) :
  fits_up_to layout limit -> isOverflow (layout size) = false -> size <= limit.
Proof.
  intros Hfit Ho. apply Qcnot_lt_le. intros Hlt.
  apply Hfit in Hlt. rewrite Hlt in Ho. discriminate.
Qed.

Lemma fits_up_to_fits (layout : JS.number -> option HTMLElement)
    (limit size : JS.number) :
  fits_up_to layout limit -> size <= limit -> isOverflow (layout size) = false.
Proof.
  intros Hfit Hle. destruct (isOverflow (layout size)) eqn:Ho; [| reflexivity].
  apply Hfit in Ho. exfalso. qc_lra.
Qed.

Section Accuracy.

Context {V : Type}.
Variable opts : TOptions.
Variable layout : JS.number -> option HTMLElement.
Hypothesis resolution_pos : 0 < resolution opts.
Implicit Types (h : Hook V) (s : TState).

Local Abbreviation measured h := (layout (fontSize (state h))).

Lemma ends_with_step h h1 t x :
  layoutEffect opts (measured h) h = (tt, h1, []) ->
  same_deps (state h) (state h1) = false ->
  ends_with opts layout h1 t x ->
  ends_with opts layout h t x.
Proof.
  intros E Hd (n & h' & Hr & Hx & Hc). exists (S n), h'.
  split; [| split; assumption].
  apply runs_in_step with (h1 := h1); assumption.
Qed.

Lemma ends_finished h :
  calcKey (state h) <> 0%nat ->
  within_resolution opts (state h) ->
  isOverflow (measured h) = false ->
  ends_with opts layout h (finish_trace opts (fontSize (state h))) (fontSize (state h)).
Proof.
  intros Hk Hw Ho. exists 1%nat, (stopped h).
  split; [| repeat split].
  apply runs_in_last; [apply layoutEffect_finished; assumption | reflexivity].
Qed.

Lemma ends_settled h :
  calcKey (state h) <> 0%nat ->
  fontSize (state h) = fontSizePrev (state h) ->
  (isOverflow (measured h) = false ->
   ends_with opts layout h (finish_trace opts (fontSize (state h))) (fontSize (state h)))
  /\ (isOverflow (measured h) = true ->
      ends_with opts layout h (failure_log opts) (fontSize (state h))).
Proof.
  intros Hk He.
  assert (Hw : within_resolution opts (state h)).
  { unfold within_resolution. apply Math_abs_le. rewrite He. split; qc_lra. }
  split; intros Ho.
  - apply ends_finished; assumption.
  - exists 1%nat, (stopped h). split; [| repeat split].
    apply runs_in_last; [apply layoutEffect_failed; assumption | reflexivity].
Qed.

Lemma ends_corrective h t x :
  calcKey (state h) <> 0%nat ->
  within_resolution opts (state h) ->
  isOverflow (measured h) = true ->
  fontSize (state h) <> fontSizePrev (state h) ->
  fontSize (state h) <> fontSize (corrected_state (state h)) ->
  ends_with opts layout (with_state h (corrected_state (state h))) t x ->
  ends_with opts layout h t x.
Proof.
  intros Hk Hw Ho He Hmove Hend.
  apply ends_with_step with (h1 := with_state h (corrected_state (state h))).
  - apply layoutEffect_corrective; assumption.
  - apply same_deps_fontSize, Hmove.
  - exact Hend.
Qed.

Lemma ends_search h t x :
  calcKey (state h) <> 0%nat ->
  ~ within_resolution opts (state h) ->
  ends_with opts layout
    (with_state h (spec_search_step (isOverflow (measured h)) (state h))) t x ->
  ends_with opts layout h t x.
Proof.
  intros Hk Hw Hend.
  eapply ends_with_step; [apply layoutEffect_search; assumption | | exact Hend].
  apply same_deps_fontSizePrev.
  cbn. unfold spec_search_step.
  assert (Hn : fontSizePrev (state h) <> fontSize (state h)).
  { intros E. apply Hw. unfold within_resolution. apply Math_abs_le.
    rewrite E. split; qc_lra. }
  destruct (isOverflow (measured h)); exact Hn.
Qed.

(** The candidate is above the previous one, which is the lower end of
    the bracket, and they are within the resolution. *)
Lemma decided_ascending_end h :
  calcKey (state h) <> 0%nat ->
  fontSizePrev (state h) = fontSizeMin (state h) ->
  fontSizeMin (state h) < fontSize (state h) ->
  fontSize (state h) - fontSizeMin (state h) <= resolution opts ->
  decided_between opts layout h (fontSize (state h)) (fontSizeMin (state h)).
Proof.
  intros Hk Hp Hlt Hle.
  assert (Hw : within_resolution opts (state h)).
  { unfold within_resolution. apply Math_abs_le. rewrite Hp. split; qc_lra. }
  assert (Hgt : JS.gt (fontSize (state h)) (fontSizePrev (state h)) = true).
  { apply JS_gt_true. rewrite Hp. exact Hlt. }
  set (h1 := with_state h (corrected_state (state h))).
  assert (Hc1 : fontSize (state h1) = fontSizeMin (state h)).
  { subst h1. cbn. rewrite Hgt. exact Hp. }
  assert (Hend : forall t,
             ends_with opts layout h1 t (fontSizeMin (state h)) ->
             isOverflow (measured h) = true ->
             ends_with opts layout h t (fontSizeMin (state h))).
  { intros t Hend Ho. apply ends_corrective; try assumption.
    - rewrite Hp. qc_lra.
    - cbn. rewrite Hgt, Hp. qc_lra. }
  destruct (ends_settled h1) as [Hfit Hfail].
  { exact Hk. }
  { subst h1. cbn. rewrite Hgt. reflexivity. }
  rewrite Hc1 in Hfit, Hfail.
  split; [| split].
  - intros Ho. apply ends_finished; assumption.
  - intros Ho Ha. apply Hend; [apply Hfit, Ha | exact Ho].
  - intros Ho Ha. apply Hend; [apply Hfail, Ha | exact Ho].
Qed.

(** The corrective step has put the candidate on the lower end of the
    bracket while the previous one is the upper end, more than one and at
    most two resolutions away. *)
Lemma decided_from_lower_end h :
  calcKey (state h) <> 0%nat ->
  fontSize (state h) = fontSizeMin (state h) ->
  fontSizePrev (state h) = fontSizeMax (state h) ->
  resolution opts < fontSizeMax (state h) - fontSizeMin (state h) ->
  fontSizeMax (state h) - fontSizeMin (state h) <= JS.of_Z 2 * resolution opts ->
  let a := fontSizeMin (state h) in
  let c := (fontSizeMin (state h) + fontSizeMax (state h)) / JS.of_Z 2 in
  (isOverflow (layout a) = true -> ends_with opts layout h (failure_log opts) a)
  /\ (isOverflow (layout a) = false -> isOverflow (layout c) = false ->
      ends_with opts layout h (finish_trace opts c) c)
  /\ (isOverflow (layout a) = false -> isOverflow (layout c) = true ->
      ends_with opts layout h (finish_trace opts a) a).
Proof.
  intros Hk Hc Hp Hlt Hle a c.
  assert (Hw : ~ within_resolution opts (state h)).
  { unfold within_resolution. rewrite Math_abs_le, Hc, Hp. intros [Hw _]. qc_lra. }
  assert (Hgt : JS.gt (fontSize (state h)) (fontSizePrev (state h)) = false).
  { apply JS_gt_false. rewrite Hc, Hp. qc_lra. }
  assert (Hm : measured h = layout a) by (rewrite Hc; reflexivity).
  split; [| split].
  - intros Ha. apply ends_search; [exact Hk | exact Hw |].
    rewrite Hm, Ha.
    set (h1 := with_state h (spec_search_step true (state h))).
    assert (Hc1 : fontSize (state h1) = a).
    { subst h1 a. unfold spec_search_step. cbn. rewrite Hgt, Hc. qc_lra. }
    destruct (ends_settled h1) as [_ Hfail].
    { exact Hk. }
    { rewrite Hc1. subst h1 a. cbn. symmetry. exact Hc. }
    rewrite Hc1 in Hfail. apply Hfail, Ha.
  - intros Ha Hoc. apply ends_search; [exact Hk | exact Hw |].
    rewrite Hm, Ha.
    set (h1 := with_state h (spec_search_step false (state h))).
    assert (Hc1 : fontSize (state h1) = c).
    { subst h1 c. unfold spec_search_step. cbn. rewrite Hgt, Hc, Hp. qc_lra. }
    assert (Hn1 : fontSizeMin (state h1) = a).
    { subst h1 a. unfold spec_search_step. cbn. rewrite Hc.
      apply Math_max_le, Qcle_refl. }
    destruct (decided_ascending_end h1) as (Hfit & _ & _).
    { exact Hk. }
    { rewrite Hn1. subst h1 a. cbn. exact Hc. }
    { rewrite Hn1, Hc1. subst a c. qc_lra. }
    { rewrite Hn1, Hc1. subst a c. qc_lra. }
    rewrite Hc1 in Hfit. apply Hfit, Hoc.
  - intros Ha Hoc. apply ends_search; [exact Hk | exact Hw |].
    rewrite Hm, Ha.
    set (h1 := with_state h (spec_search_step false (state h))).
    assert (Hc1 : fontSize (state h1) = c).
    { subst h1 c. unfold spec_search_step. cbn. rewrite Hgt, Hc, Hp. qc_lra. }
    assert (Hn1 : fontSizeMin (state h1) = a).
    { subst h1 a. unfold spec_search_step. cbn. rewrite Hc.
      apply Math_max_le, Qcle_refl. }
    destruct (decided_ascending_end h1) as (_ & Hlow & _).
    { exact Hk. }
    { rewrite Hn1. subst h1 a. cbn. exact Hc. }
    { rewrite Hn1, Hc1. subst a c. qc_lra. }
    { rewrite Hn1, Hc1. subst a c. qc_lra. }
    rewrite Hc1, Hn1 in Hlow. apply Hlow; assumption.
Qed.

(** The candidate is the middle of a bracket wider than the resolution,
    the previous one is an end of it, and they are within the resolution:
    the search is decided between the middle and the lower end. *)
Lemma decided_bisection_end h :
  calcKey (state h) <> 0%nat ->
  fontSize (state h) = (fontSizeMin (state h) + fontSizeMax (state h)) / JS.of_Z 2 ->
  fontSizePrev (state h) = fontSizeMin (state h)
  \/ fontSizePrev (state h) = fontSizeMax (state h) ->
  resolution opts < fontSizeMax (state h) - fontSizeMin (state h) ->
  within_resolution opts (state h) ->
  decided_between opts layout h (fontSize (state h)) (fontSizeMin (state h)).
Proof.
  intros Hk Hc Hp Hlt Hw.
  pose proof Hw as Hw'. unfold within_resolution in Hw'.
  apply Math_abs_le in Hw'. destruct Hw' as [Hw1 Hw2].
  split; [intros Ho; apply ends_finished; assumption |].
  set (h1 := with_state h (corrected_state (state h))).
  destruct Hp as [Hp | Hp].
  - assert (Hgt : JS.gt (fontSize (state h)) (fontSizePrev (state h)) = true).
    { apply JS_gt_true. rewrite Hp, Hc. qc_lra. }
    assert (Hc1 : fontSize (state h1) = fontSizeMin (state h)).
    { subst h1. cbn. rewrite Hgt. exact Hp. }
    destruct (ends_settled h1) as [Hfit Hfail].
    { exact Hk. }
    { subst h1. cbn. rewrite Hgt. reflexivity. }
    rewrite Hc1 in Hfit, Hfail.
    split; intros Ho Ha; apply ends_corrective; try assumption;
      try (rewrite Hp, Hc; qc_lra);
      try (cbn; rewrite Hgt, Hp, Hc; qc_lra).
    + apply Hfit, Ha.
    + apply Hfail, Ha.
  - assert (Hgt : JS.gt (fontSize (state h)) (fontSizePrev (state h)) = false).
    { apply JS_gt_false. rewrite Hp, Hc. qc_lra. }
    destruct (decided_from_lower_end h1) as (Hfail & _ & Hlow).
    { exact Hk. }
    { subst h1. cbn. rewrite Hgt. reflexivity. }
    { subst h1. cbn. exact Hp. }
    { subst h1. cbn. exact Hlt. }
    { subst h1. cbn. rewrite Hp, Hc in Hw1. qc_lra. }
    change (fontSizeMin (state h1)) with (fontSizeMin (state h)) in Hfail, Hlow.
    change (fontSizeMax (state h1)) with (fontSizeMax (state h)) in Hlow.
    rewrite <- Hc in Hlow.
    split; intros Ho Ha; apply ends_corrective; try assumption;
      try (rewrite Hp, Hc; qc_lra);
      try (cbn; rewrite Hgt, Hc; qc_lra).
    + apply Hlow; assumption.
    + apply Hfail, Ha.
Qed.

(** The end of a bisection on content that fits up to a limit inside the
    bracket. *)
Lemma bisection_end_accuracy (limit : JS.number) h :
  fits_up_to layout limit ->
  calcKey (state h) <> 0%nat ->
  fontSize (state h) = (fontSizeMin (state h) + fontSizeMax (state h)) / JS.of_Z 2 ->
  fontSizePrev (state h) = fontSizeMin (state h)
  \/ fontSizePrev (state h) = fontSizeMax (state h) ->
  resolution opts < fontSizeMax (state h) - fontSizeMin (state h) ->
  within_resolution opts (state h) ->
  fontSizeMin (state h) <= limit ->
  limit < fontSizeMax (state h) ->
  exists x,
    ends_with opts layout h (finish_trace opts x) x
    /\ x <= limit /\ limit < x + resolution opts.
Proof.
  intros Hfit Hk Hc Hp Hlt Hw Ha Hb.
  destruct (decided_bisection_end h Hk Hc Hp Hlt Hw) as (Hmid & Hlow & _).
  pose proof Hw as Hw'. unfold within_resolution in Hw'.
  apply Math_abs_le in Hw'. destruct Hw' as [Hw1 Hw2].
  assert (Hhalf : fontSizeMax (state h) - fontSizeMin (state h)
                  <= JS.of_Z 2 * resolution opts).
  { destruct Hp as [Hp | Hp]; rewrite Hp, Hc in Hw1, Hw2; qc_lra. }
  destruct (isOverflow (measured h)) eqn:Ho.
  - exists (fontSizeMin (state h)).
    split; [apply Hlow; [reflexivity | apply (fits_up_to_fits layout limit), Ha; exact Hfit] |].
    apply Hfit in Ho. rewrite Hc in Ho. split; qc_lra.
  - exists (fontSize (state h)).
    split; [apply Hmid; reflexivity |].
    apply (fits_up_to_false layout limit) in Ho; [| exact Hfit].
    rewrite Hc in *. split; qc_lra.
Qed.

(** A bisecting search on content that fits up to a limit inside the
    bracket ends at most one resolution below the limit. *)
Lemma bisecting_accuracy (limit : JS.number) (j : nat) :
  fits_up_to layout limit ->
  forall h,
    bisecting opts j (state h) ->
    fontSizeMin (state h) <= limit ->
    limit < fontSizeMax (state h) ->
    exists x,
      ends_with opts layout h (finish_trace opts x) x
      /\ x <= limit /\ limit < x + resolution opts.
Proof.
  intros Hfit.
  induction j as [| j IH]; intros h Hb Ha Hlim;
    destruct (within_resolution_dec opts (state h)) as [Hw | Hw].
  - destruct Hb as (Hk & Hc & Hp & Hlt & _).
    apply (bisection_end_accuracy limit); assumption.
  - exfalso. apply Hw. destruct Hb as (Hk & Hc & Hp & Hlt & Hle).
    rewrite pow2_S, pow2_0 in Hle.
    unfold within_resolution. apply Math_abs_le.
    destruct Hp as [Hp | Hp]; rewrite Hp, Hc; split; qc_lra.
  - destruct Hb as (Hk & Hc & Hp & Hlt & _).
    apply (bisection_end_accuracy limit); assumption.
  - pose proof (spec_search_step_bisecting opts resolution_pos j
                  (isOverflow (measured h)) (state h) Hb Hw) as Hb1.
    destruct Hb as (Hk & Hc & Hp & Hlt & Hle).
    assert (Hmin : fontSizeMin (state h) <= fontSize (state h)) by (rewrite Hc; qc_lra).
    assert (Hmax : fontSize (state h) <= fontSizeMax (state h)) by (rewrite Hc; qc_lra).
    destruct (IH (with_state h (spec_search_step (isOverflow (measured h)) (state h))))
      as (x & Hx & Hx1 & Hx2).
    + exact Hb1.
    + cbn. unfold spec_search_step.
      destruct (isOverflow (measured h)) eqn:Ho; cbn; [exact Ha |].
      rewrite (Math_max_le _ _ Hmin). apply (fits_up_to_false layout limit); assumption.
    + cbn. unfold spec_search_step.
      destruct (isOverflow (measured h)) eqn:Ho; cbn; [| exact Hlim].
      rewrite (Math_min_ge _ _ Hmax). apply Hfit, Ho.
    + exists x. split; [| split; assumption].
      apply ends_search; assumption.
Qed.

(** A bisecting search on content that overflows at every size from
    minFontSize up fails at minFontSize. *)
Lemma bisecting_failure (j : nat) :
  (forall size, minFontSize opts <= size -> isOverflow (layout size) = true) ->
  forall h,
    bisecting opts j (state h) ->
    fontSizeMin (state h) = minFontSize opts ->
    ends_with opts layout h (failure_log opts) (minFontSize opts).
Proof.
  intros Hover.
  assert (Hend : forall h,
             calcKey (state h) <> 0%nat ->
             fontSize (state h)
             = (fontSizeMin (state h) + fontSizeMax (state h)) / JS.of_Z 2 ->
             fontSizePrev (state h) = fontSizeMin (state h)
             \/ fontSizePrev (state h) = fontSizeMax (state h) ->
             resolution opts < fontSizeMax (state h) - fontSizeMin (state h) ->
             within_resolution opts (state h) ->
             fontSizeMin (state h) = minFontSize opts ->
             ends_with opts layout h (failure_log opts) (minFontSize opts)).
  { intros h Hk Hc Hp Hlt Hw Hm.
    destruct (decided_bisection_end h Hk Hc Hp Hlt Hw) as (_ & _ & Hfail).
    rewrite Hm in Hfail. apply Hfail; apply Hover; [| apply Qcle_refl].
    rewrite Hc, <- Hm. qc_lra. }
  induction j as [| j IH]; intros h Hb Hm;
    destruct (within_resolution_dec opts (state h)) as [Hw | Hw].
  - destruct Hb as (Hk & Hc & Hp & Hlt & _). apply Hend; assumption.
  - exfalso. apply Hw. destruct Hb as (Hk & Hc & Hp & Hlt & Hle).
    rewrite pow2_S, pow2_0 in Hle.
    unfold within_resolution. apply Math_abs_le.
    destruct Hp as [Hp | Hp]; rewrite Hp, Hc; split; qc_lra.
  - destruct Hb as (Hk & Hc & Hp & Hlt & _). apply Hend; assumption.
  - pose proof (spec_search_step_bisecting opts resolution_pos j
                  (isOverflow (measured h)) (state h) Hb Hw) as Hb1.
    destruct Hb as (Hk & Hc & Hp & Hlt & Hle).
    assert (Ho : isOverflow (measured h) = true).
    { apply Hover. rewrite Hc, <- Hm. qc_lra. }
    apply ends_search; [exact Hk | exact Hw |].
    apply IH; [exact Hb1 |].
    rewrite Ho. exact Hm.
Qed.

Lemma reset_facts h generation :
  minFontSize opts < maxFontSize opts ->
  state h = resetState opts generation ->
  calcKey (state h) <> 0%nat
  /\ fontSize (state h) = maxFontSize opts
  /\ fontSizePrev (state h) = minFontSize opts
  /\ fontSizeMax (state h) = maxFontSize opts
  /\ fontSizeMin (state h) = minFontSize opts
  /\ JS.gt (fontSize (state h)) (fontSizePrev (state h)) = true.
Proof.
  intros Hlt Hs. rewrite Hs. cbn.
  repeat split; try lia. apply JS_gt_true, Hlt.
Qed.

(** The first step of a search that is wider than the resolution and
    overflows at maxFontSize leaves a bisecting search. *)
Lemma reset_bisecting h generation k :
  minFontSize opts < maxFontSize opts ->
  state h = resetState opts generation ->
  ~ within_resolution opts (state h) ->
  maxFontSize opts - minFontSize opts <= resolution opts * pow2 k ->
  exists j,
    let s1 := spec_search_step true (state h) in
    bisecting opts j s1
    /\ fontSizeMin s1 = minFontSize opts
    /\ fontSizeMax s1 = maxFontSize opts.
Proof.
  intros Hlt Hs Hw Hle.
  destruct (reset_facts h generation Hlt Hs) as (Hk & Hc & Hp & Hmx & Hmn & Hgt).
  assert (Hwide : resolution opts < maxFontSize opts - minFontSize opts).
  { apply Qcnot_le_lt. intros Hn. apply Hw. unfold within_resolution.
    apply Math_abs_le. rewrite Hc, Hp. split; qc_lra. }
  destruct k as [| k].
  { exfalso. rewrite pow2_0 in Hle. qc_lra. }
  exists k. cbv zeta. unfold bisecting, spec_search_step. cbn.
  rewrite Hgt, Hc, Hp, Hmx, Hmn.
  rewrite (Math_min_ge _ _ (Qcle_refl _)).
  repeat split; try assumption; try (right; reflexivity); qc_lra.
Qed.

End Accuracy.



(* ================================================================== *)
(** * The generation a resize installs *)

(** X15.  A resize that starts a search installs generation 1 whatever
    the generation was, the callback having captured the [calcKey] of the
    first render.  So when maxFontSize - minFontSize is within the
    resolution and the text fits, the search a resize starts ends at its
    first measurement with its state untouched, and the next resize
    installs that same state again, with both calculating flags set:
    none of the values the layout effect depends on has changed. *)
Theorem resize_after_immediate_fit {V : Type} `{Dequal V} (opts : TOptions)
    (h : Hook V) (r : option HTMLElement) :
  minFontSize opts <= maxFontSize opts ->
  maxFontSize opts - minFontSize opts <= resolution opts ->
  isOverflow r = false ->
  state h = resetState opts 0 ->
  observing h = true ->
  let h1 := hook_of (layoutEffect opts r h) in
  let h2 := hook_of (handle opts ResizeNotification h1) in
  isCalculating h1 = false
  /\ isCalculatingRef h1 = false
  /\ calcKey (state h2) = 1%nat
  /\ state h2 = state h1
  /\ same_deps (state h1) (state h2) = true
  /\ isCalculating h2 = true
  /\ isCalculatingRef h2 = true.
Proof.
  intros Hle Hclose Ho Hs Hob. cbv zeta.
  assert (Hk : calcKey (state h) <> 0%nat) by (rewrite Hs; cbn; lia).
  assert (Hw : within_resolution opts (state h)).
  { unfold within_resolution. apply Math_abs_le. rewrite Hs. cbn. split; qc_lra. }
  rewrite (layoutEffect_finished opts r h Hk Hw Ho).
  cbn [hook_of fst snd].
  assert (E : hook_of (handle opts ResizeNotification (stopped h))
              = hook_of (ro opts (stopped h))).
  { cbn [handle]. change (observing (stopped h)) with (observing h).
    rewrite Hob. reflexivity. }
  rewrite E.
  destruct (resize_starts_search opts (stopped h) eq_refl) as (Hs2 & Hc2 & Hb2 & _).
  change (state (stopped h)) with (state h).
  rewrite Hs2, Hs, same_deps_refl.
  repeat split; assumption.
Qed.

(* ================================================================== *)
(** * Termination whatever is measured *)

Section Unstable.

Context {V : Type}.
Variable opts : TOptions.
Hypothesis resolution_pos : 0 < resolution opts.
Implicit Types (h : Hook V) (s : TState) (r : option HTMLElement).

Lemma settles_within_mono n : forall m h,
  (n <= m)%nat -> settles_within opts n h -> settles_within opts m h.
Proof.
  induction n as [| n IH]; intros m h Hle Hn; [destruct Hn |].
  destruct m as [| m]; [lia |].
  cbn [settles_within] in *. intros r. specialize (Hn r). cbv zeta in *.
  destruct (same_deps _ _); [exact Hn |].
  apply IH; [lia | exact Hn].
Qed.

Lemma settles_run n : forall h layouts,
  settles_within opts n h ->
  (n <= List.length layouts)%nat ->
  exists m h' t,
    run_changing opts layouts h = Some (m, h', t)
    /\ (m <= n)%nat
    /\ isCalculating h' = false /\ isCalculatingRef h' = false.
Proof.
  induction n as [| n IH]; intros h layouts Hn Hlen; [destruct Hn |].
  destruct layouts as [| layout rest]; [cbn in Hlen; lia |].
  cbn [settles_within] in Hn. specialize (Hn (layout (fontSize (state h)))).
  cbv zeta in Hn. cbn [run_changing].
  destruct (layoutEffect opts (layout (fontSize (state h))) h) as [[[] h1] t1].
  cbn [hook_of fst snd] in Hn.
  destruct (same_deps (state h) (state h1)).
  - exists 1%nat, h1, t1. split; [reflexivity | split; [lia | exact Hn]].
  - destruct (IH h1 rest Hn) as (m & h' & t & E & Hm & Hc).
    { cbn in Hlen. lia. }
    rewrite E. exists (S m), h', (t1 ++ t).
    split; [reflexivity | split; [lia | exact Hc]].
Qed.

(** How a step shows that the search settles. *)
Lemma settles_by_steps n h :
  (forall r,
      (state (hook_of (layoutEffect opts r h)) = state h
       /\ isCalculating (hook_of (layoutEffect opts r h)) = false
       /\ isCalculatingRef (hook_of (layoutEffect opts r h)) = false)
      \/ (same_deps (state h) (state (hook_of (layoutEffect opts r h))) = false
          /\ settles_within opts n (hook_of (layoutEffect opts r h)))) ->
  settles_within opts (S n) h.
Proof.
  intros Hstep. cbn [settles_within]. intros r. cbv zeta.
  destruct (Hstep r) as [(Hs & Hc) | (Hd & Hn)].
  - rewrite Hs, same_deps_refl. exact Hc.
  - rewrite Hd. exact Hn.
Qed.

Lemma settles_settled n h :
  calcKey (state h) <> 0%nat ->
  fontSize (state h) = fontSizePrev (state h) ->
  settles_within opts (S n) h.
Proof.
  intros Hk He. apply settles_by_steps. intros r. left.
  assert (Hw : within_resolution opts (state h)).
  { unfold within_resolution. apply Math_abs_le. rewrite He. split; qc_lra. }
  destruct (isOverflow r) eqn:Ho.
  - rewrite (layoutEffect_failed opts r h Hk Hw Ho He). repeat split.
  - rewrite (layoutEffect_finished opts r h Hk Hw Ho). repeat split.
Qed.

Lemma settles_search_step n h :
  calcKey (state h) <> 0%nat ->
  ~ within_resolution opts (state h) ->
  (forall overflow,
      settles_within opts n (with_state h (spec_search_step overflow (state h)))) ->
  settles_within opts (S n) h.
Proof.
  intros Hk Hw Hn. apply settles_by_steps. intros r. right.
  rewrite (layoutEffect_search opts r h Hk Hw). cbn [hook_of fst snd].
  split; [| apply Hn].
  apply same_deps_fontSizePrev. cbn. unfold spec_search_step.
  assert (Hne : fontSizePrev (state h) <> fontSize (state h)).
  { intros E. apply Hw. unfold within_resolution. apply Math_abs_le.
    rewrite E. split; qc_lra. }
  destruct (isOverflow r); exact Hne.
Qed.

Lemma settles_within_resolution n h :
  calcKey (state h) <> 0%nat ->
  within_resolution opts (state h) ->
  fontSize (state h) <> fontSizePrev (state h) ->
  fontSize (state h) <> fontSize (corrected_state (state h)) ->
  settles_within opts n (with_state h (corrected_state (state h))) ->
  settles_within opts (S n) h.
Proof.
  intros Hk Hw He Hmove Hn. apply settles_by_steps. intros r.
  destruct (isOverflow r) eqn:Ho.
  - right. rewrite (layoutEffect_corrective opts r h Hk Hw Ho He).
    cbn [hook_of fst snd]. split; [apply same_deps_fontSize, Hmove | exact Hn].
  - left. rewrite (layoutEffect_finished opts r h Hk Hw Ho). repeat split.
Qed.

Lemma settles_ascending_end h :
  calcKey (state h) <> 0%nat ->
  fontSizePrev (state h) = fontSizeMin (state h) ->
  fontSizeMin (state h) < fontSize (state h) ->
  fontSize (state h) - fontSizeMin (state h) <= resolution opts ->
  settles_within opts 2 h.
Proof.
  intros Hk Hp Hlt Hle.
  assert (Hw : within_resolution opts (state h)).
  { unfold within_resolution. apply Math_abs_le. rewrite Hp. split; qc_lra. }
  assert (Hgt : JS.gt (fontSize (state h)) (fontSizePrev (state h)) = true).
  { apply JS_gt_true. rewrite Hp. exact Hlt. }
  apply settles_within_resolution; try assumption.
  - rewrite Hp. qc_lra.
  - cbn. rewrite Hgt, Hp. qc_lra.
  - apply settles_settled; [exact Hk |]. cbn. rewrite Hgt. reflexivity.
Qed.

Lemma settles_from_lower_end h :
  calcKey (state h) <> 0%nat ->
  fontSize (state h) = fontSizeMin (state h) ->
  fontSizePrev (state h) = fontSizeMax (state h) ->
  resolution opts < fontSizeMax (state h) - fontSizeMin (state h) ->
  fontSizeMax (state h) - fontSizeMin (state h) <= JS.of_Z 2 * resolution opts ->
  settles_within opts 3 h.
Proof.
  intros Hk Hc Hp Hlt Hle.
  assert (Hw : ~ within_resolution opts (state h)).
  { unfold within_resolution. rewrite Math_abs_le, Hc, Hp. intros [Hw _]. qc_lra. }
  assert (Hgt : JS.gt (fontSize (state h)) (fontSizePrev (state h)) = false).
  { apply JS_gt_false. rewrite Hc, Hp. qc_lra. }
  apply settles_search_step; try assumption.
  intros [|].
  - apply settles_within_mono with (n := 1%nat); [lia |].
    apply settles_settled; [exact Hk |].
    cbn. rewrite Hgt, Hc. qc_lra.
  - apply settles_ascending_end; cbn; rewrite ?Hgt, ?Hc, ?Hp.
    + exact Hk.
    + symmetry. apply Math_max_le, Qcle_refl.
    + rewrite (Math_max_le _ _ (Qcle_refl _)). qc_lra.
    + rewrite (Math_max_le _ _ (Qcle_refl _)). qc_lra.
Qed.

Lemma settles_bisection_end h :
  calcKey (state h) <> 0%nat ->
  fontSize (state h) = (fontSizeMin (state h) + fontSizeMax (state h)) / JS.of_Z 2 ->
  fontSizePrev (state h) = fontSizeMin (state h)
  \/ fontSizePrev (state h) = fontSizeMax (state h) ->
  resolution opts < fontSizeMax (state h) - fontSizeMin (state h) ->
  within_resolution opts (state h) ->
  settles_within opts 4 h.
Proof.
  intros Hk Hc Hp Hlt Hw.
  pose proof Hw as Hw'. unfold within_resolution in Hw'.
  apply Math_abs_le in Hw'. destruct Hw' as [Hw1 Hw2].
  destruct Hp as [Hp | Hp].
  - assert (Hgt : JS.gt (fontSize (state h)) (fontSizePrev (state h)) = true).
    { apply JS_gt_true. rewrite Hp, Hc. qc_lra. }
    apply settles_within_resolution; try assumption.
    + rewrite Hp, Hc. qc_lra.
    + cbn. rewrite Hgt, Hp, Hc. qc_lra.
    + apply settles_within_mono with (n := 1%nat); [lia |].
      apply settles_settled; [exact Hk |]. cbn. rewrite Hgt. reflexivity.
  - assert (Hgt : JS.gt (fontSize (state h)) (fontSizePrev (state h)) = false).
    { apply JS_gt_false. rewrite Hp, Hc. qc_lra. }
    apply settles_within_resolution; try assumption.
    + rewrite Hp, Hc. qc_lra.
    + cbn. rewrite Hgt, Hc. qc_lra.
    + apply settles_from_lower_end; cbn; rewrite ?Hgt; try assumption.
      * reflexivity.
      * rewrite Hp, Hc in Hw1. qc_lra.
Qed.

Lemma settles_bisecting j :
  forall h, bisecting opts j (state h) -> settles_within opts (j + 4) h.
Proof.
  induction j as [| j IH]; intros h Hb;
    destruct (within_resolution_dec opts (state h)) as [Hw | Hw].
  - destruct Hb as (Hk & Hc & Hp & Hlt & _).
    apply settles_bisection_end; assumption.
  - exfalso. apply Hw. destruct Hb as (Hk & Hc & Hp & Hlt & Hle).
    rewrite pow2_S, pow2_0 in Hle.
    unfold within_resolution. apply Math_abs_le.
    destruct Hp as [Hp | Hp]; rewrite Hp, Hc; split; qc_lra.
  - destruct Hb as (Hk & Hc & Hp & Hlt & _).
    apply settles_within_mono with (n := 4%nat); [lia |].
    apply settles_bisection_end; assumption.
  - change (S j + 4)%nat with (S (j + 4)).
    apply settles_search_step; [apply Hb | exact Hw |].
    intros overflow. apply IH. cbn.
    apply (spec_search_step_bisecting opts resolution_pos); assumption.
Qed.

Lemma settles_reset h generation k :
  minFontSize opts < maxFontSize opts ->
  state h = resetState opts generation ->
  maxFontSize opts - minFontSize opts <= resolution opts * pow2 k ->
  settles_within opts (k + 4) h.
Proof.
  intros Hlt Hs Hle.
  destruct (reset_facts opts h generation Hlt Hs) as (Hk & Hc & Hp & Hmx & Hmn & Hgt).
  destruct (within_resolution_dec opts (state h)) as [Hw | Hw].
  { apply settles_within_mono with (n := 2%nat); [lia |].
    unfold within_resolution in Hw. apply Math_abs_le in Hw. rewrite Hc, Hp in Hw.
    apply settles_ascending_end; rewrite ?Hc, ?Hp, ?Hmn; tauto. }
  replace (k + 4)%nat with (S (k + 3)) by lia.
  apply settles_search_step; try assumption.
  intros [|].
  - destruct k as [| k].
    { exfalso. rewrite pow2_0 in Hle.
      apply Hw. unfold within_resolution. apply Math_abs_le.
      rewrite Hc, Hp. split; qc_lra. }
    replace (S k + 3)%nat with (k + 4)%nat by lia.
    apply settles_bisecting. unfold bisecting, spec_search_step. cbn.
    rewrite Hgt, Hc, Hp, Hmx, Hmn.
    rewrite (Math_min_ge _ _ (Qcle_refl _)).
    assert (Hwide : resolution opts < maxFontSize opts - minFontSize opts).
    { apply Qcnot_le_lt. intros Hn. apply Hw. unfold within_resolution.
      apply Math_abs_le. rewrite Hc, Hp. split; qc_lra. }
    repeat split; try assumption; try (right; reflexivity); qc_lra.
  - apply settles_within_mono with (n := 1%nat); [lia |].
    apply settles_settled; [exact Hk |].
    unfold spec_search_step. cbn. rewrite Hgt, Hc, Hmx. qc_lra.
Qed.

End Unstable.


(** A search with one layout for all its measurements is a search with
    changing layouts that do not change. *)
Lemma run_changing_repeat {V : Type} (opts : TOptions)
    (layout : JS.number -> option HTMLElement) (fuel : nat) :
  forall h : Hook V, run_changing opts (repeat layout fuel) h = run opts fuel layout h.
Proof.
  induction fuel as [| fuel IH]; intros h; [reflexivity |].
  cbn [repeat run_changing run].
  destruct (layoutEffect opts (layout (fontSize (state h))) h) as [[[] h1] t1].
  destruct (same_deps (state h) (state h1)); [reflexivity |].
  rewrite IH. reflexivity.
Qed.

(* ================================================================== *)
(** * The further properties at concrete inputs *)

Lemma fits_up_to_62_spec : fits_up_to fits_up_to_62 (JS.of_Z 62).
Proof.
  intros size. unfold fits_up_to_62.
  destruct (JS.gt size (JS.of_Z 62)) eqn:E.
  - apply JS_gt_true in E. split; [intros _; exact E | reflexivity].
  - apply JS_gt_false in E. split; [discriminate |].
    intros Hlt. exfalso. qc_lra.
Qed.

Lemma search_is_a_bisection_witness :
  bracket_shape (state (after observedOptions narrowed)).
Proof.
  apply (search_is_a_bisection observedOptions narrowed).
  vm_compute. discriminate.
Defined.

Lemma onFinish_reports_a_fitting_size_witness :
  exists x h',
    option_map (fun '(_, h', t) => (h', t))
      (run observedOptions 8 fits_up_to_62 (after observedOptions resized))
    = Some (h', [Call_onFinish x])
    /\ x = fontSize (state h')
    /\ isOverflow (fits_up_to_62 x) = false.
Proof.
  destruct (run observedOptions 8 fits_up_to_62 (after observedOptions resized))
    as [[[n h'] t] |] eqn:R.
  2:{ vm_compute in R. discriminate. }
  assert (Hin : exists x, In (Call_onFinish x) t).
  { pose proof R as R'. vm_compute in R'. injection R' as _ _ <-.
    eexists. left. reflexivity. }
  destruct Hin as [x Hin].
  destruct (onFinish_reports_a_fitting_size observedOptions fits_up_to_62 8
              _ _ _ _ _ R Hin) as (Hx & Ho & Ht & _).
  exists x, h'. cbn [option_map]. rewrite Ht. repeat split; assumption.
Defined.

Lemma failure_means_overflow_at_minFontSize_witness :
  exists h',
    option_map (fun '(_, h', _) => h')
      (run verboseOptions 7 (fun _ => Some overflowing) (after verboseOptions resized))
    = Some h'
    /\ fontSize (state h') = minFontSize verboseOptions.
Proof.
  destruct (run verboseOptions 7 (fun _ => Some overflowing)
              (after verboseOptions resized)) as [[[n h'] t] |] eqn:R.
  2:{ vm_compute in R. discriminate. }
  assert (Hin : exists message, In (Console info message) t).
  { pose proof R as R'. vm_compute in R'. injection R' as _ _ <-.
    eexists. left. reflexivity. }
  destruct Hin as [message Hin].
  destruct (failure_means_overflow_at_minFontSize verboseOptions
              (fun _ => Some overflowing) 7 0 (after verboseOptions resized)
              _ _ _ _ _
              ltac:(vm_compute; discriminate) eq_refl R Hin) as (Hx & _).
  exists h'. split; [reflexivity | exact Hx].
Defined.





Lemma triggers_dropped_during_search_witness :
  replay observedOptions
    [ResizeNotification; RunDepsEffect ["new title"%string]; ResizeNotification]
    (after observedOptions resized)
  = (tt, after observedOptions resized, []).
Proof.
  apply (triggers_dropped_during_search observedOptions).
  - reflexivity.
  - repeat constructor.
Defined.

Lemma no_search_before_first_resize_witness :
  trace_of (replay observedOptions
              [RunObserveEffect (Some fitting); RunDepsEffect ["title"%string];
               RunLayoutEffect (Some overflowing); RunDepsEffect ["new title"%string]]
              (mount observedOptions))
  = [].
Proof.
  apply (no_search_before_first_resize observedOptions).
  repeat constructor.
Defined.

Lemma dependency_change_restarts_once_witness :
  let h := after observedOptions
             (resized ++ [RunLayoutEffect (Some fitting); RunLayoutEffect (Some fitting)]) in
  let first := depsEffect observedOptions ["new title"%string] h in
  trace_of first = [Call_onStart]
  /\ depsEffect observedOptions ["new title"%string] (hook_of first)
     = (tt, with_snapshot (hook_of first) ["new title"%string], []).
Proof.
  cbv zeta.
  destruct (dependency_change_restarts_once observedOptions
              ["new title"%string] ["new title"%string]
              (after observedOptions
                 (resized ++ [RunLayoutEffect (Some fitting);
                              RunLayoutEffect (Some fitting)])))
    as (Ht & _ & _ & _ & Hsecond).
  - vm_compute. discriminate.
  - reflexivity.
  - reflexivity.
  - reflexivity.
  - split; [exact Ht | exact Hsecond].
Defined.

Lemma resize_after_immediate_fit_witness :
  let h1 := hook_of (layoutEffect closeOptions (Some fitting)
                       (after closeOptions resized)) in
  let h2 := hook_of (handle closeOptions ResizeNotification h1) in
  isCalculating h1 = false /\ state h2 = state h1 /\ isCalculating h2 = true.
Proof.
  cbv zeta.
  destruct (resize_after_immediate_fit closeOptions (after closeOptions resized)
              (Some fitting)) as (H1 & _ & _ & H2 & _ & H3 & _).
  - vm_compute. discriminate.
  - vm_compute. discriminate.
  - reflexivity.
  - reflexivity.
  - reflexivity.
  - repeat split; assumption.
Defined.
